(** * Cortex Python SDK: the in-memory [MockCortex] test double

    A shallow embedding of [sdks/python/cortex_memory/testing.py]
    (with the record shapes of [cortex_memory/models.py]), of the request
    building and error handling of [cortex_memory/client.py], and of the
    traversal engine as the specification describes it, with the properties
    of the retrieval contract that can be checked against them.

    Modelling conventions
    - A Python [str] is a Rocq [string]; a Python [int] is a [Z]; a Python
      [float] is a binary64 [float] (Rocq's primitive floats).
    - A Python [dict] keeps its keys in insertion order, and assigning to a
      key that is already present keeps the key's position: [PyDict] is an
      association list with exactly this update.
    - A method of [MockCortex] is a computation in the monad [Py], which
      threads the object ([self]) and the random source read by
      [uuid.uuid4()], and which can raise.
    - [str.lower] is a library function whose Unicode tables are not part
      of the repository: the methods take it as a parameter [lower].
      [ascii_lower] is its restriction to ASCII text, used for concrete
      runs. *)

From Stdlib Require Import ZArith List String Ascii PrimFloat Lia.
From Stdlib Require Import DecimalString.
From stdpp Require Import base list.
Import ListNotations.

#[local] Set Warnings "-inexact-float".

Local Open Scope string_scope.
Local Open Scope Z_scope.

(** ** Python values *)

(** [x or y] on strings: the empty string is falsy. *)
Definition str_or (x y : string) : string :=
  if String.eqb x "" then y else x.

(** [x or []] / [x or {}] for an [Optional] container: [None] and the empty
    container are both falsy. *)
Definition opt_or_empty {A : Type} (x : option (list A)) : list A :=
  match x with
  | None => []
  | Some [] => []
  | Some l => l
  end.

(** [sub in s] on strings: [sub] occurs in [s] as a contiguous substring. *)
Fixpoint contains (sub s : string) : bool :=
  String.prefix sub s ||
  match s with
  | EmptyString => false
  | String _ s' => contains sub s'
  end.

(** [l[:stop]] for any integer [stop]: a negative [stop] counts from the
    end, and the bounds are clamped to the list. *)
Definition slice_to {A : Type} (stop : Z) (l : list A) : list A :=
  if 0 <=? stop then take (Z.to_nat stop) l
  else take (Z.to_nat (Z.of_nat (length l) + stop)) l.

(** [str.lower] on ASCII text. *)
Definition ascii_lower_char (c : ascii) : ascii :=
  let n := nat_of_ascii c in
  if ((65 <=? n) && (n <=? 90))%nat then ascii_of_nat (n + 32) else c.

Fixpoint ascii_lower (s : string) : string :=
  match s with
  | EmptyString => EmptyString
  | String c s' => String (ascii_lower_char c) (ascii_lower s')
  end.

(** ** Insertion-ordered dictionaries with string keys *)

Module PyDict.

Definition t (V : Type) : Type := list (string * V).

(** [{}] *)
Definition empty {V : Type} : t V := [].

(** [d.get(k)] *)
Fixpoint get {V : Type} (k : string) (d : t V) : option V :=
  match d with
  | [] => None
  | (k', v) :: d' => if String.eqb k k' then Some v else get k d'
  end.

(** [d[k] = v]: an existing key keeps its position, a new key goes last. *)
Fixpoint set {V : Type} (k : string) (v : V) (d : t V) : t V :=
  match d with
  | [] => [(k, v)]
  | (k', v') :: d' =>
      if String.eqb k k' then (k', v) :: d' else (k', v') :: set k v d'
  end.

(** [d.keys()], [d.values()], [len(d)] *)
Definition keys {V : Type} (d : t V) : list string := map fst d.
Definition values {V : Type} (d : t V) : list V := map snd d.
Definition len {V : Type} (d : t V) : nat := length d.

End PyDict.

(** ** Records *)

(** The dict literal built by [MockCortex.store]. *)
Module NodeData.
Record t : Type := Build {
  id : string;
  kind : string;
  title : string;
  body : string;
  tags : list string;
  importance : float;
  metadata : PyDict.t string;
  source_agent : string
}.
End NodeData.

(** [class _MockNode]: [__init__] copies the dict into the object's
    attribute dictionary, so reading attribute [a] of the object reads
    key [a] of [__dict__]. *)
Module _MockNode.
Record t : Type := Build { __dict__ : NodeData.t }.
Definition __init__ (data : NodeData.t) : t := {| __dict__ := data |}.
Definition id (n : t) : string := NodeData.id (__dict__ n).
Definition kind (n : t) : string := NodeData.kind (__dict__ n).
Definition title (n : t) : string := NodeData.title (__dict__ n).
Definition body (n : t) : string := NodeData.body (__dict__ n).
Definition tags (n : t) : list string := NodeData.tags (__dict__ n).
Definition importance (n : t) : float := NodeData.importance (__dict__ n).
Definition metadata (n : t) : PyDict.t string := NodeData.metadata (__dict__ n).
Definition source_agent (n : t) : string := NodeData.source_agent (__dict__ n).
End _MockNode.

(** [class _MockSearchResult]. The [getattr] defaults of [body] and
    [importance] are never taken: every [_MockNode] built by the mock has
    both attributes. *)
Module _MockSearchResult.
Record t : Type := Build {
  score : float;
  node_id : string;
  title : string;
  kind : string;
  body : string;
  importance : float
}.
Definition __init__ (score : float) (node : _MockNode.t) : t :=
  {| score := score;
     node_id := _MockNode.id node;
     title := _MockNode.title node;
     kind := _MockNode.kind node;
     body := _MockNode.body node;
     importance := _MockNode.importance node |}.
End _MockSearchResult.

(** [class _MockBriefing] of [briefing_full]. *)
Module _MockBriefing.
Record t : Type := Build {
  text : string;
  nodes_consulted : nat;
  cached : bool;
  generated_at : string
}.
End _MockBriefing.

(** [models.Edge]: a directed edge. *)
Module Edge.
Record t : Type := Build {
  id : string;
  from_id : string;
  to_id : string;
  relation : string;
  weight : float
}.
End Edge.

(** The dict [{"nodes": ..., "edges": ...}] returned by [traverse]. *)
Module TraverseResult.
Record t : Type := Build {
  nodes : list NodeData.t;
  edges : list Edge.t
}.
End TraverseResult.

(** ** The object and the monad of its methods *)

(** [MockCortex.__init__]'s two attributes. An entry of [_call_log] is the
    tuple [("store", kind, title)]. *)
Record MockCortex : Type := {
  _nodes : PyDict.t NodeData.t;
  _call_log : list (string * string * string)
}.

(** What a method can see and change: the object, and the random source
    behind [uuid.uuid4()], given as the sequence of the UUID strings it
    will produce. *)
Record World : Type := {
  self : MockCortex;
  entropy : nat -> string
}.

(** gRPC status codes of the error taxonomy, and the exceptions a call can
    end in. The message of an [AssertionError] is not modelled. *)
Inductive StatusCode : Type :=
| INVALID_ARGUMENT
| NOT_FOUND
| UNAVAILABLE
| INTERNAL.

Inductive exn : Type :=
| AssertionError
| RpcError (code : StatusCode).

Inductive Res (A : Type) : Type :=
| Ok (a : A)
| Raise (e : exn).
Arguments Ok {A} a.
Arguments Raise {A} e.

Definition Py (A : Type) : Type := World -> Res A * World.

Definition ret {A : Type} (a : A) : Py A := fun w => (Ok a, w).

Definition bind {A B : Type} (c : Py A) (k : A -> Py B) : Py B :=
  fun w =>
    match c w with
    | (Ok a, w') => k a w'
    | (Raise e, w') => (Raise e, w')
    end.

Definition raise {A : Type} (e : exn) : Py A := fun w => (Raise e, w).

Definition get_self : Py MockCortex := fun w => (Ok (self w), w).

Definition put_self (mc : MockCortex) : Py unit :=
  fun w => (Ok tt, {| self := mc; entropy := entropy w |}).

Declare Scope py_scope.
Delimit Scope py_scope with py.
Notation "x <- c ;; k" := (bind c (fun x => k))
  (at level 100, c at next level, right associativity) : py_scope.
Notation "c ;;; k" := (bind c (fun _ => k))
  (at level 100, right associativity) : py_scope.
Local Open Scope py_scope.

(** [str(uuid.uuid4())]: the next UUID of the random source. *)
Definition uuid4 : Py string :=
  fun w => (Ok (entropy w 0%nat),
            {| self := self w; entropy := fun n => entropy w (S n) |}).

(** [MockCortex()] *)
Definition MockCortex__init__ : MockCortex :=
  {| _nodes := PyDict.empty; _call_log := [] |}.

(** ** Write *)

(** The record that [store] puts under [node_id]. *)
Definition node_record (node_id kind title body : string)
  (tags : option (list string)) (importance : float)
  (metadata : option (PyDict.t string)) (source_agent : string) : NodeData.t :=
  {| NodeData.id := node_id;
     NodeData.kind := kind;
     NodeData.title := title;
     NodeData.body := str_or body title;
     NodeData.tags := opt_or_empty tags;
     NodeData.importance := importance;
     NodeData.metadata := opt_or_empty metadata;
     NodeData.source_agent := source_agent |}.

Definition store (kind title body : string) (tags : option (list string))
  (importance : float) (metadata : option (PyDict.t string))
  (source_agent : string) : Py string :=
  node_id <- uuid4 ;;
  mc <- get_self ;;
  put_self {| _nodes := PyDict.set node_id
                (node_record node_id kind title body tags importance
                   metadata source_agent) (_nodes mc);
              _call_log := _call_log mc |} ;;;
  mc <- get_self ;;
  put_self {| _nodes := _nodes mc;
              _call_log := _call_log mc ++ [("store", kind, title)] |} ;;;
  ret node_id.

(** [store(kind, title)] with every keyword argument at its default. *)
Definition store_default (kind title : string) : Py string :=
  store kind title "" None 0.5%float None "".

(** ** Read / search *)

Section Search.

Variable lower : string -> string.

(** The condition of the comprehension in [search], for the lowered
    query [q]. *)
Definition is_match (q : string) (n : NodeData.t) : bool :=
  contains q (lower (NodeData.title n)) || contains q (lower (NodeData.body n)).

Definition search (query : string) (limit : Z) : Py (list _MockSearchResult.t) :=
  mc <- get_self ;;
  let q := lower query in
  let matches :=
    map (fun n => _MockSearchResult.__init__ 0.9%float (_MockNode.__init__ n))
      (List.filter (is_match q) (PyDict.values (_nodes mc))) in
  ret (slice_to limit matches).

Definition search_hybrid (query : string) (anchor_ids : option (list string))
  (limit : Z) : Py (list _MockSearchResult.t) :=
  search query limit.

End Search.

Definition briefing (agent_id : string) (compact : bool) : Py string :=
  ret ("[Mock briefing for " ++ agent_id ++ "]").

Definition briefing_full (agent_id : string) (compact : bool)
  : Py _MockBriefing.t :=
  mc <- get_self ;;
  ret {| _MockBriefing.text := "[Mock briefing for " ++ agent_id ++ "]";
         _MockBriefing.nodes_consulted := PyDict.len (_nodes mc);
         _MockBriefing.cached := false;
         _MockBriefing.generated_at := "" |}.

(** [data] is a dict with eight keys whenever it is not [None], hence
    truthy: the conditional expression only tests for [None]. *)
Definition get_node (node_id : string) : Py (option _MockNode.t) :=
  mc <- get_self ;;
  let data := PyDict.get node_id (_nodes mc) in
  ret (match data with
       | Some d => Some (_MockNode.__init__ d)
       | None => None
       end).

Definition traverse (node_id : string) (depth : Z) (direction : string)
  : Py TraverseResult.t :=
  ret {| TraverseResult.nodes := []; TraverseResult.edges := [] |}.

(** ** Assertion helpers *)

Definition log_entry_is (kind title : string)
  (entry : string * string * string) : bool :=
  let '(e0, e1, e2) := entry in
  String.eqb e0 "store" && String.eqb e1 kind && String.eqb e2 title.

Definition assert_stored (kind title : string) : Py unit :=
  mc <- get_self ;;
  if existsb (log_entry_is kind title) (_call_log mc) then ret tt
  else raise AssertionError.

Definition assert_not_stored (kind title : string) : Py unit :=
  mc <- get_self ;;
  if existsb (log_entry_is kind title) (_call_log mc) then raise AssertionError
  else ret tt.

(** ** Sequences of API calls

    A test drives one [MockCortex] through a sequence of method calls. A
    call that raises leaves the object as it is at the raise, and the
    sequence goes on (the test catches the exception). [step] gives the
    world after a call together with the ids the call issued. *)

Inductive call : Type :=
| Store (kind title body : string) (tags : option (list string))
    (importance : float) (metadata : option (PyDict.t string))
    (source_agent : string)
| Search (query : string) (limit : Z)
| SearchHybrid (query : string) (anchor_ids : option (list string)) (limit : Z)
| Briefing (agent_id : string) (compact : bool)
| BriefingFull (agent_id : string) (compact : bool)
| GetNode (node_id : string)
| Traverse (node_id : string) (depth : Z) (direction : string)
| AssertStored (kind title : string)
| AssertNotStored (kind title : string).

Section Runs.

Variable lower : string -> string.

Definition step (c : call) (w : World) : World * list string :=
  match c with
  | Store kind title body tags importance metadata source_agent =>
      match store kind title body tags importance metadata source_agent w with
      | (Ok node_id, w') => (w', [node_id])
      | (Raise _, w') => (w', [])
      end
  | Search query limit => ((search lower query limit w).2, [])
  | SearchHybrid query anchor_ids limit =>
      ((search_hybrid lower query anchor_ids limit w).2, [])
  | Briefing agent_id compact => ((briefing agent_id compact w).2, [])
  | BriefingFull agent_id compact => ((briefing_full agent_id compact w).2, [])
  | GetNode node_id => ((get_node node_id w).2, [])
  | Traverse node_id depth direction =>
      ((traverse node_id depth direction w).2, [])
  | AssertStored kind title => ((assert_stored kind title w).2, [])
  | AssertNotStored kind title => ((assert_not_stored kind title w).2, [])
  end.

Fixpoint run (cs : list call) (w : World) : World * list string :=
  match cs with
  | [] => (w, [])
  | c :: cs' =>
      let '(w1, issued1) := step c w in
      let '(w2, issued2) := run cs' w1 in
      (w2, (issued1 ++ issued2)%list)
  end.

(** The nodes that [search] selects for [query], before the slice. *)
Definition matching (query : string) (mc : MockCortex) : list NodeData.t :=
  List.filter (is_match lower (lower query)) (PyDict.values (_nodes mc)).

End Runs.

(** A test starts from [MockCortex()]. *)
Definition new_world (uuids : nat -> string) : World :=
  {| self := MockCortex__init__; entropy := uuids |}.

(** ** Graphs, for the traversal bound

    A graph is a list of [Edge] records. [follows direction e a b]: edge
    [e] leads from [a] to [b] when walked in [direction]. [within E
    direction start k n]: a walk of [k] edges leads from [start] to [n].
    The shortest edge-distance of [n] from [start] is at most [d] exactly
    when some [k <= d] has [within E direction start k n]. *)

Definition follows (direction : string) (e : Edge.t) (a b : string) : Prop :=
  ((direction = "outgoing" \/ direction = "both")
     /\ Edge.from_id e = a /\ Edge.to_id e = b)
  \/ ((direction = "incoming" \/ direction = "both")
     /\ Edge.from_id e = b /\ Edge.to_id e = a).

Inductive within (E : list Edge.t) (direction start : string)
  : nat -> string -> Prop :=
| within_start : within E direction start 0 start
| within_step (k : nat) (a b : string) (e : Edge.t) :
    within E direction start k a -> In e E -> follows direction e a b ->
    within E direction start (S k) b.

(** ** Concrete runs *)

(** A random source for concrete runs: the n-th UUID is ["uuid-n"]. *)
Definition test_uuids (n : nat) : string :=
  "uuid-" ++ NilZero.string_of_uint (Nat.to_uint n).

Definition w0 : World := new_world test_uuids.

(** Ten notes with one title, stored by ten calls of [store(kind, title)]. *)
Definition ten_deploys : list call :=
  repeat (Store "event" "Deploy complete" "" None 0.5%float None "") 10.

Definition w10 : World := (run ascii_lower ten_deploys w0).1.

(** The scenario of the test suite: two nodes, one of which matches
    ["rate limit"]. *)
Definition two_nodes : list call :=
  [ Store "fact" "Rate limit is 1000/min" "" None 0.5%float None "";
    Store "event" "Deploy complete" "" None 0.5%float None "" ].

Definition w2 : World := (run ascii_lower two_nodes w0).1.


(** ** What a run logs *)

(** The entry a call appends to [_call_log]: only [store] logs. *)
Definition store_log_entry (c : call) : list (string * string * string) :=
  match c with
  | Store kind title _ _ _ _ _ => [("store", kind, title)]
  | _ => []
  end.

(** [d.update(other)]: assign every item of [other], in its order. *)
Definition dict_update {V : Type} (d other : PyDict.t V) : PyDict.t V :=
  fold_left (fun acc kv => PyDict.set kv.1 kv.2 acc) other d.

(** ** The gRPC client ([cortex_memory/client.py])

    The generated stub and its messages are not part of the sources: a
    message is a record of the fields the SDK writes or reads, and the
    service behind the stub is a parameter, a function of the server's
    state that answers or raises. *)

Module CreateNodeRequest.
Record t : Type := Build {
  kind : string;
  title : string;
  body : string;
  importance : float;
  tags : list string;
  source_agent : string;
  metadata : PyDict.t string
}.
End CreateNodeRequest.

Module CreateNodeResponse.
Record t : Type := Build { id : string }.
End CreateNodeResponse.

Module NodeResponse.
Record t : Type := Build {
  id : string;
  kind : string;
  title : string;
  body : string;
  importance : float;
  tags : list string;
  source_agent : string
}.
End NodeResponse.

(** [models.Node] *)
Module Node.
Record t : Type := Build {
  id : string;
  kind : string;
  title : string;
  body : string;
  importance : float;
  tags : list string;
  source_agent : string
}.
Definition __init__ (proto : NodeResponse.t) : t :=
  {| id := NodeResponse.id proto;
     kind := NodeResponse.kind proto;
     title := NodeResponse.title proto;
     body := NodeResponse.body proto;
     importance := NodeResponse.importance proto;
     tags := NodeResponse.tags proto;
     source_agent := NodeResponse.source_agent proto |}.
End Node.

(** What [close] does to the outside: it closes the channel, and it
    terminates the server subprocess that [open] started. *)
Inductive effect : Type :=
| ChannelClose
| ProcTerminate (pid : nat).

Module Cortex.

(** The attribute of the client that [close] reads and writes: the
    subprocess of library mode, if any. *)
Record t : Type := Build { _proc : option nat }.

Section Stub.

Variable Server : Type.
Variable CreateNode :
  CreateNodeRequest.t -> Server -> Res CreateNodeResponse.t * Server.
Variable GetNode : string -> Server -> Res NodeResponse.t * Server.

(** The request that [Cortex.store] builds: [metadata] is copied into the
    request's map only when it is given and not empty. *)
Definition store_request (kind title body : string)
  (tags : option (list string)) (importance : float)
  (metadata : option (PyDict.t string)) (source_agent : string)
  : CreateNodeRequest.t :=
  let req :=
    {| CreateNodeRequest.kind := kind;
       CreateNodeRequest.title := title;
       CreateNodeRequest.body := str_or body title;
       CreateNodeRequest.importance := importance;
       CreateNodeRequest.tags := opt_or_empty tags;
       CreateNodeRequest.source_agent := source_agent;
       CreateNodeRequest.metadata := PyDict.empty |} in
  match metadata with
  | Some (item :: items) =>
      {| CreateNodeRequest.kind := CreateNodeRequest.kind req;
         CreateNodeRequest.title := CreateNodeRequest.title req;
         CreateNodeRequest.body := CreateNodeRequest.body req;
         CreateNodeRequest.importance := CreateNodeRequest.importance req;
         CreateNodeRequest.tags := CreateNodeRequest.tags req;
         CreateNodeRequest.source_agent := CreateNodeRequest.source_agent req;
         CreateNodeRequest.metadata :=
           dict_update (CreateNodeRequest.metadata req) (item :: items) |}
  | _ => req
  end.

Definition store (kind title body : string) (tags : option (list string))
  (importance : float) (metadata : option (PyDict.t string))
  (source_agent : string) : Server -> Res string * Server :=
  fun s =>
    match CreateNode (store_request kind title body tags importance metadata
                        source_agent) s with
    | (Ok resp, s') => (Ok (CreateNodeResponse.id resp), s')
    | (Raise e, s') => (Raise e, s')
    end.

(** [except grpc.RpcError as e]: a [NOT_FOUND] becomes [None], any other
    error is raised again; an exception of another class is not caught. *)
Definition get_node (node_id : string)
  : Server -> Res (option Node.t) * Server :=
  fun s =>
    match GetNode node_id s with
    | (Ok resp, s') => (Ok (Some (Node.__init__ resp)), s')
    | (Raise (RpcError NOT_FOUND), s') => (Ok None, s')
    | (Raise e, s') => (Raise e, s')
    end.

End Stub.

(** [close]: the new client and the effects of the call, in order. *)
Definition close (cx : t) : t * list effect :=
  match _proc cx with
  | Some pid => ({| _proc := None |}, [ChannelClose; ProcTerminate pid])
  | None => (cx, [ChannelClose])
  end.

(** [n] calls of [close] in a row. *)
Fixpoint close_times (n : nat) (cx : t) : t * list effect :=
  match n with
  | O => (cx, [])
  | S n' =>
      let '(cx1, effects1) := close cx in
      let '(cx2, effects2) := close_times n' cx1 in
      (cx2, (effects1 ++ effects2)%list)
  end.

End Cortex.

(** Is this effect the termination of a subprocess? *)
Definition is_terminate (e : effect) : bool :=
  match e with
  | ProcTerminate _ => true
  | ChannelClose => false
  end.

(** ** The traversal engine (spec, section 4.3)

    [MockCortex.traverse] is a stub that walks nothing, and
    [Cortex.traverse] only forwards to the stub's [Traverse]: the engine
    that answers it is not among the sources. *)

(** Does a walk in [direction] follow an edge forwards, backwards? *)
Definition walks_out (direction : string) : bool :=
  String.eqb direction "outgoing" || String.eqb direction "both".

Definition walks_in (direction : string) : bool :=
  String.eqb direction "incoming" || String.eqb direction "both".

(** The nodes that edge [e] leads to from [u] when walked in [direction]. *)
Definition edge_targets (direction u : string) (e : Edge.t) : list string :=
  ((if walks_out direction && String.eqb (Edge.from_id e) u
    then [Edge.to_id e] else [])
   ++ (if walks_in direction && String.eqb (Edge.to_id e) u
       then [Edge.from_id e] else []))%list.

(** The edges that leave [u], each with the node it leads to, in the order
    of the edge records. *)
Definition neighbours (E : list Edge.t) (direction u : string)
  : list (Edge.t * string) :=
  flat_map (fun e => map (fun v => (e, v)) (edge_targets direction u e)) E.

(** The state of a walk: the nodes visited so far, each with the depth at
    which it was first seen; the edges walked to reach them; and the nodes
    of the deepest level, from which the next level is explored. *)
Module Walk.
Record t : Type := Build {
  visited : list (string * nat);
  edges : list Edge.t;
  frontier : list string
}.
End Walk.

(** The visited-set guard. *)
Definition seen (v : string) (st : Walk.t) : bool :=
  existsb (String.eqb v) (map fst (Walk.visited st)).

(** Reach node [v] at [depth], through edge [via] if any: a node already
    visited is not visited again, so that its first depth stays. *)
Definition visit (depth : nat) (st : Walk.t) (c : option Edge.t * string)
  : Walk.t :=
  if seen c.2 st then st
  else {| Walk.visited := (Walk.visited st ++ [(c.2, depth)])%list;
          Walk.edges :=
            (Walk.edges st
             ++ match c.1 with Some e => [e] | None => [] end)%list;
          Walk.frontier := (Walk.frontier st ++ [c.2])%list |}.

(** One level of the breadth-first expansion: visit, at [depth], every
    node one edge away from the current frontier. *)
Definition expand (E : list Edge.t) (direction : string) (depth : nat)
  (st : Walk.t) : Walk.t :=
  fold_left (visit depth)
    (flat_map (fun u => map (fun c => (Some c.1, c.2))
                          (neighbours E direction u))
       (Walk.frontier st))
    {| Walk.visited := Walk.visited st;
       Walk.edges := Walk.edges st;
       Walk.frontier := [] |}.

(** [levels] more levels, the last level explored being at [depth]. *)
Fixpoint expand_levels (E : list Edge.t) (direction : string)
  (levels depth : nat) (st : Walk.t) : Walk.t :=
  match levels with
  | O => st
  | S levels' =>
      expand_levels E direction levels' (S depth)
        (expand E direction (S depth) st)
  end.

(** Modelled from the spec: the traversal engine behind [Traverse], which
    is missing from the sources. "Breadth-first expansion from the start
    set following edges filtered by [direction], visiting each node at most
    once (first-seen depth wins), bounded by [max_depth] (depth 0 = start
    nodes only). Returns the visited node set and the edges that were
    traversed to reach them." A visited node comes with the level at which
    it was first visited, which the hybrid scorer reads. *)
Definition traverse_engine (E : list Edge.t) (start_ids : list string)
  (max_depth : nat) (direction : string)
  : list (string * nat) * list Edge.t :=
  let start :=
    fold_left (visit 0) (map (fun s => (None, s)) start_ids)
      {| Walk.visited := []; Walk.edges := []; Walk.frontier := [] |} in
  let st := expand_levels E direction max_depth 0 start in
  (Walk.visited st, Walk.edges st).

(** Some start node is [k] edges away from [v]. *)
Definition reach (E : list Edge.t) (direction : string)
  (start_ids : list string) (k : nat) (v : string) : Prop :=
  exists s : string, In s start_ids /\ within E direction s k v.

(** What holds of a walk once the levels up to [i] are explored: no node
    is visited twice; the depth of a visited node is at most [i] and is its
    shortest distance from the start set; every node at most [i] edges away
    is visited; the frontier is the level [i]; and only edges of the graph
    were walked. *)
Definition walk_inv (E : list Edge.t) (direction : string)
  (start_ids : list string) (i : nat) (st : Walk.t) : Prop :=
  NoDup (map fst (Walk.visited st))
  /\ (forall v k, In (v, k) (Walk.visited st) ->
       (k <= i)%nat /\ reach E direction start_ids k v
       /\ forall j, reach E direction start_ids j v -> (k <= j)%nat)
  /\ (forall v j, reach E direction start_ids j v -> (j <= i)%nat ->
       In v (map fst (Walk.visited st)))
  /\ (forall v, In v (Walk.frontier st) <-> In (v, i) (Walk.visited st))
  /\ (forall e, In e (Walk.edges st) -> In e E).

(** A graph with a cycle: a -> b -> c -> a, and c -> d. *)
Definition cyclic_graph : list Edge.t :=
  [ {| Edge.id := "e1"; Edge.from_id := "a"; Edge.to_id := "b";
       Edge.relation := "next"; Edge.weight := 1%float |};
    {| Edge.id := "e2"; Edge.from_id := "b"; Edge.to_id := "c";
       Edge.relation := "next"; Edge.weight := 1%float |};
    {| Edge.id := "e3"; Edge.from_id := "c"; Edge.to_id := "a";
       Edge.relation := "next"; Edge.weight := 1%float |};
    {| Edge.id := "e4"; Edge.from_id := "c"; Edge.to_id := "d";
       Edge.relation := "next"; Edge.weight := 1%float |} ].

(** * Properties *)

(** ** Strings and slices *)

Lemma prefix_refl (s : string) : String.prefix s s = true.
Proof.
  induction s as [|c s IH]; simpl; [reflexivity|].
  destruct (ascii_dec c c); [exact IH | congruence].
Qed.

Lemma contains_refl (s : string) : contains s s = true.
Proof.
  destruct s as [|c s]; [reflexivity|].
  change (String.prefix (String c s) (String c s)
          || contains (String c s) s = true).
  rewrite prefix_refl. reflexivity.
Qed.

Lemma slice_to_nil {A : Type} (stop : Z) : slice_to stop (@nil A) = [].
Proof. unfold slice_to. destruct (0 <=? stop); apply take_nil. Qed.

Lemma slice_to_is_take {A : Type} (stop : Z) (l : list A) :
  exists m : nat, slice_to stop l = take m l.
Proof. unfold slice_to. destruct (0 <=? stop); eauto. Qed.

Lemma slice_to_all {A : Type} (stop : Z) (l : list A) :
  Z.of_nat (length l) <= stop -> slice_to stop l = l.
Proof.
  intros H. unfold slice_to.
  destruct (Z.leb_spec 0 stop) as [_|Hneg]; [|lia].
  apply take_ge. lia.
Qed.

(** ** Dictionaries *)

Lemma dict_get_set_eq {V : Type} (k : string) (v : V) (d : PyDict.t V) :
  PyDict.get k (PyDict.set k v d) = Some v.
Proof.
  induction d as [|[k' v'] d IH]; simpl.
  - rewrite String.eqb_refl. reflexivity.
  - destruct (String.eqb_spec k k') as [->|Hne]; simpl.
    + rewrite String.eqb_refl. reflexivity.
    + destruct (String.eqb_spec k k'); [contradiction | exact IH].
Qed.

Lemma dict_get_set_ne {V : Type} (k k' : string) (v : V) (d : PyDict.t V) :
  k <> k' -> PyDict.get k' (PyDict.set k v d) = PyDict.get k' d.
Proof.
  intros Hne. induction d as [|[k0 v0] d IH]; simpl.
  - destruct (String.eqb_spec k' k); [congruence | reflexivity].
  - destruct (String.eqb_spec k k0) as [->|Hk]; simpl.
    + destruct (String.eqb_spec k' k0); [congruence | reflexivity].
    + rewrite IH. reflexivity.
Qed.

Lemma dict_set_fresh {V : Type} (k : string) (v : V) (d : PyDict.t V) :
  PyDict.get k d = None -> PyDict.set k v d = (d ++ [(k, v)])%list.
Proof.
  induction d as [|[k' v'] d IH]; simpl; [reflexivity|].
  destruct (String.eqb_spec k k'); [discriminate|].
  intros H. rewrite (IH H). reflexivity.
Qed.

Lemma dict_get_Some_In {V : Type} (k : string) (v : V) (d : PyDict.t V) :
  PyDict.get k d = Some v -> In (k, v) d.
Proof.
  induction d as [|[k' v'] d IH]; simpl; [discriminate|].
  destruct (String.eqb_spec k k') as [->|Hne].
  - intros [= ->]. left. reflexivity.
  - intros H. right. exact (IH H).
Qed.

Lemma dict_get_None_keys {V : Type} (k : string) (d : PyDict.t V) :
  ~ In k (PyDict.keys d) -> PyDict.get k d = None.
Proof.
  induction d as [|[k' v'] d IH]; simpl; [reflexivity|].
  intros Hnot. destruct (String.eqb_spec k k') as [->|Hne].
  - exfalso. apply Hnot. left. reflexivity.
  - apply IH. intros Hin. apply Hnot. right. exact Hin.
Qed.


Lemma dict_values_In {V : Type} (k : string) (v : V) (d : PyDict.t V) :
  In (k, v) d -> In v (PyDict.values d).
Proof. intros H. unfold PyDict.values. apply (in_map snd d (k, v) H). Qed.

(** ** What a call returns and how it leaves the world *)

(** [store] never raises: it returns the UUID it drew, and leaves the
    object with the record written under that UUID and the call logged. *)
Lemma store_eq (kind title body : string) (tags : option (list string))
  (importance : float) (metadata : option (PyDict.t string))
  (source_agent : string) (w : World) :
  store kind title body tags importance metadata source_agent w =
  (Ok (entropy w 0%nat),
   {| self :=
        {| _nodes :=
             PyDict.set (entropy w 0%nat)
               (node_record (entropy w 0%nat) kind title body tags importance
                  metadata source_agent) (_nodes (self w));
           _call_log := (_call_log (self w) ++ [("store", kind, title)])%list |};
      entropy := fun n => entropy w (S n) |}).
Proof. reflexivity. Qed.

Lemma search_eq (lower : string -> string) (query : string) (limit : Z)
  (w : World) :
  search lower query limit w =
  (Ok (slice_to limit
         (map (fun n => _MockSearchResult.__init__ 0.9%float (_MockNode.__init__ n))
            (matching lower query (self w)))), w).
Proof. reflexivity. Qed.

Lemma get_node_eq (node_id : string) (w : World) :
  get_node node_id w =
  (Ok (option_map _MockNode.__init__ (PyDict.get node_id (_nodes (self w)))), w).
Proof.
  unfold get_node, bind, get_self, ret. simpl.
  destruct (PyDict.get node_id (_nodes (self w))); reflexivity.
Qed.

Lemma assert_stored_world (kind title : string) (w : World) :
  (assert_stored kind title w).2 = w.
Proof.
  unfold assert_stored, bind, get_self. simpl.
  destruct (existsb _ _); reflexivity.
Qed.

Lemma assert_not_stored_world (kind title : string) (w : World) :
  (assert_not_stored kind title w).2 = w.
Proof.
  unfold assert_not_stored, bind, get_self. simpl.
  destruct (existsb _ _); reflexivity.
Qed.

(** Only [store] changes the object; every other call leaves the world as
    it found it and issues no id. *)
Lemma step_not_store (lower : string -> string) (c : call) (w : World) :
  (forall k t b tg i m s, c <> Store k t b tg i m s) ->
  step lower c w = (w, []).
Proof.
  intros Hc. destruct c; simpl; try reflexivity.
  - exfalso. eapply Hc. reflexivity.
  - rewrite assert_stored_world. reflexivity.
  - rewrite assert_not_stored_world. reflexivity.
Qed.


(** [store] leaves the records under every other id as they were, whether
    or not the UUID it drew was already a key. *)
Lemma store_other_ids_unchanged (kind title body : string)
  (tags : option (list string)) (importance : float)
  (metadata : option (PyDict.t string)) (source_agent : string) (w : World)
  (k : string) :
  k <> entropy w 0%nat ->
  PyDict.get k
    (_nodes (self (store kind title body tags importance metadata
                     source_agent w).2))
  = PyDict.get k (_nodes (self w)).
Proof.
  intros Hk. rewrite store_eq. cbn [snd self _nodes].
  apply dict_get_set_ne. congruence.
Qed.

(** When the UUIDs drawn during a run are distinct from each other and from
    the keys already present, the keys of the node dictionary after the run
    are the keys before it followed by the issued ids, in the order of the
    [store] calls: the order of the dictionary is the order of insertion. *)
Lemma run_keys_in_issue_order (lower : string -> string) (cs : list call) :
  forall w : World,
    NoDup (PyDict.keys (_nodes (self w)) ++ (run lower cs w).2) ->
    PyDict.keys (_nodes (self (run lower cs w).1))
    = (PyDict.keys (_nodes (self w)) ++ (run lower cs w).2)%list.
Proof.
  induction cs as [|c cs IH]; intros w; simpl.
  - rewrite app_nil_r. reflexivity.
  - destruct (step lower c w) as [w1 issued1] eqn:Hstep.
    specialize (IH w1).
    destruct (run lower cs w1) as [w2 issued2]. simpl in *.
    intros Hnd.
    assert (Hw1 : PyDict.keys (_nodes (self w1))
                  = (PyDict.keys (_nodes (self w)) ++ issued1)%list).
    { destruct c; unfold step in Hstep;
        try (simpl in Hstep; injection Hstep as <- <-;
             rewrite app_nil_r; reflexivity).
      - rewrite store_eq in Hstep. injection Hstep as <- <-.
        cbn [self _nodes]. rewrite dict_set_fresh.
        + unfold PyDict.keys. rewrite map_app. reflexivity.
        + apply dict_get_None_keys. intros Hin.
          apply NoDup_app in Hnd as (_ & Hdisj & _).
          apply (Hdisj (entropy w 0%nat)).
          * apply list_elem_of_In. exact Hin.
          * left.
      - rewrite assert_stored_world in Hstep. injection Hstep as <- <-.
        rewrite app_nil_r. reflexivity.
      - rewrite assert_not_stored_world in Hstep. injection Hstep as <- <-.
        rewrite app_nil_r. reflexivity. }
    rewrite IH; rewrite Hw1, <- app_assoc; [reflexivity | exact Hnd].
Qed.

(** ** Order of the matches *)

Lemma lookup_map_inv {A B : Type} (f : A -> B) (l : list A) (i : nat) (y : B) :
  map f l !! i = Some y -> exists x, l !! i = Some x /\ y = f x.
Proof.
  revert i. induction l as [|a l IH]; intros [|i]; simpl; try discriminate.
  - intros [= <-]. eauto.
  - apply IH.
Qed.

Lemma lookup_filter_inv {A : Type} (P : A -> bool) (l : list A) (j : nat) (y : A) :
  List.filter P l !! j = Some y -> exists p, l !! p = Some y.
Proof.
  revert j. induction l as [|a l IH]; intros j; simpl; [discriminate|].
  destruct (P a).
  - destruct j as [|j]; simpl.
    + intros [= <-]. exists 0%nat. reflexivity.
    + intros H. destruct (IH j H) as [p Hp]. exists (S p). exact Hp.
  - intros H. destruct (IH j H) as [p Hp]. exists (S p). exact Hp.
Qed.

(** [filter] keeps the relative order of the elements it keeps. *)
Lemma lookup_filter_order {A : Type} (P : A -> bool) (l : list A) :
  forall (i j : nat) (x y : A),
    (i < j)%nat ->
    List.filter P l !! i = Some x -> List.filter P l !! j = Some y ->
    exists p p', (p < p')%nat /\ l !! p = Some x /\ l !! p' = Some y.
Proof.
  induction l as [|a l IH]; intros i j x y Hij; simpl; [discriminate|].
  destruct (P a).
  - destruct i as [|i]; destruct j as [|j]; try lia; simpl.
    + intros [= <-] Hy. destruct (lookup_filter_inv P l j y Hy) as [p' Hp'].
      exists 0%nat, (S p'). repeat split; [lia | exact Hp'].
    + intros Hx Hy.
      destruct (IH i j x y ltac:(lia) Hx Hy) as (p & p' & Hlt & Hp & Hp').
      exists (S p), (S p'). repeat split; [lia | exact Hp | exact Hp'].
  - intros Hx Hy.
    destruct (IH i j x y Hij Hx Hy) as (p & p' & Hlt & Hp & Hp').
    exists (S p), (S p'). repeat split; [lia | exact Hp | exact Hp'].
Qed.

(** ** The claims *)


(** C2, as the code has it. [store] validates nothing: a call whose
    [kind] or [title] is the empty string is accepted like any other. It
    raises no error, returns an id, and the record is in the store under
    that id. *)
Theorem store_accepts_empty (kind title body : string)
  (tags : option (list string)) (importance : float)
  (metadata : option (PyDict.t string)) (source_agent : string) (w : World) :
  kind = "" \/ title = "" ->
  exists (node_id : string) (w' : World),
    store kind title body tags importance metadata source_agent w
      = (Ok node_id, w') /\
    PyDict.get node_id (_nodes (self w'))
      = Some (node_record node_id kind title body tags importance metadata
                source_agent).
Proof.
  intros _. rewrite store_eq. eexists _, _. split; [reflexivity|].
  cbn [self _nodes]. apply dict_get_set_eq.
Qed.

Lemma store_accepts_empty_witness :
  ("" = "" \/ "Title only" = "") /\
  exists (node_id : string) (w' : World),
    store "" "Title only" "" None 0.5%float None "" w0 = (Ok node_id, w') /\
    PyDict.get node_id (_nodes (self w'))
      = Some (node_record node_id "" "Title only" "" None 0.5%float None "").
Proof.
  split; [left; reflexivity|].
  apply (store_accepts_empty "" "Title only" "" None 0.5%float None "" w0).
  left. reflexivity.
Defined.

(** C2 fails on the code: [store("", "")] on a new [MockCortex] is not
    rejected with [INVALID_ARGUMENT]. It returns the id it drew, and the
    store, empty before the call, holds one node after it. *)
Lemma store_empty_kind_title_not_rejected :
  (store_default "" "" w0).1 = Ok "uuid-0" /\
  (store_default "" "" w0).1 <> Raise (RpcError INVALID_ARGUMENT) /\
  PyDict.len (_nodes (self w0)) = 0%nat /\
  PyDict.len (_nodes (self (store_default "" "" w0).2)) = 1%nat /\
  option_map NodeData.title
    (PyDict.get "uuid-0" (_nodes (self (store_default "" "" w0).2))) = Some "".
Proof. repeat split. discriminate. Qed.

(** C1, as the code has it. After [store], a [search] for the exact title
    returns the new node with score 0.9, which is above 0, whenever [limit]
    is at least the number of stored nodes that the query matches. (With
    more matching nodes than [limit], the slice keeps the earliest ones.) *)
Theorem read_your_writes (lower : string -> string) (kind title body : string)
  (tags : option (list string)) (importance : float)
  (metadata : option (PyDict.t string)) (source_agent : string) (limit : Z)
  (w : World) :
  Z.of_nat (length (matching lower title
    (self (store kind title body tags importance metadata source_agent w).2)))
    <= limit ->
  exists (node_id : string) (w' : World) (results : list _MockSearchResult.t)
    (r : _MockSearchResult.t),
    store kind title body tags importance metadata source_agent w
      = (Ok node_id, w') /\
    search lower title limit w' = (Ok results, w') /\
    In r results /\
    _MockSearchResult.node_id r = node_id /\
    _MockSearchResult.title r = title /\
    _MockSearchResult.score r = 0.9%float /\
    PrimFloat.ltb 0%float (_MockSearchResult.score r) = true.
Proof.
  rewrite store_eq. cbn [snd self]. intros Hlimit.
  set (node_id := entropy w 0%nat) in *.
  set (rec := node_record node_id kind title body tags importance metadata
                source_agent) in *.
  exists node_id. eexists.
  exists (map (fun n => _MockSearchResult.__init__ 0.9%float
                          (_MockNode.__init__ n))
            (matching lower title
               {| _nodes := PyDict.set node_id rec (_nodes (self w));
                  _call_log :=
                    (_call_log (self w) ++ [("store", kind, title)])%list |})).
  exists (_MockSearchResult.__init__ 0.9%float (_MockNode.__init__ rec)).
  split; [reflexivity|]. split.
  - rewrite search_eq. cbn [self].
    rewrite slice_to_all; [reflexivity|]. rewrite length_map. exact Hlimit.
  - split; [|repeat split].
    apply (in_map (fun n => _MockSearchResult.__init__ 0.9%float
                              (_MockNode.__init__ n))).
    unfold matching. apply filter_In. split.
    + cbn [_nodes]. apply (dict_values_In node_id).
      apply dict_get_Some_In. apply dict_get_set_eq.
    + unfold is_match. subst rec. cbn [node_record NodeData.title].
      rewrite contains_refl. reflexivity.
Qed.

Lemma read_your_writes_witness :
  Z.of_nat (length (matching ascii_lower "Rate limit is 1000/min"
    (self (store "fact" "Rate limit is 1000/min" "" None 0.5%float None ""
             w10).2))) <= 10 /\
  exists (node_id : string) (w' : World) (results : list _MockSearchResult.t)
    (r : _MockSearchResult.t),
    store "fact" "Rate limit is 1000/min" "" None 0.5%float None "" w10
      = (Ok node_id, w') /\
    search ascii_lower "Rate limit is 1000/min" 10 w' = (Ok results, w') /\
    In r results /\
    _MockSearchResult.node_id r = node_id /\
    _MockSearchResult.title r = "Rate limit is 1000/min" /\
    _MockSearchResult.score r = 0.9%float /\
    PrimFloat.ltb 0%float (_MockSearchResult.score r) = true.
Proof.
  assert (H : Z.of_nat (length (matching ascii_lower "Rate limit is 1000/min"
    (self (store "fact" "Rate limit is 1000/min" "" None 0.5%float None ""
             w10).2))) <= 10) by (vm_compute; discriminate).
  split; [exact H|].
  exact (read_your_writes ascii_lower "fact" "Rate limit is 1000/min" "" None
           0.5%float None "" 10 w10 H).
Defined.

(** C1 fails on the code: after ten nodes titled "Deploy complete", an
    eleventh [store("event", "Deploy complete")] returns "uuid-10", and
    the [search("Deploy complete")] that follows, with the default limit of
    10, returns the ten earlier nodes and not the new one. *)
Lemma search_after_store_misses_eleventh :
  (store_default "event" "Deploy complete" w10).1 = Ok "uuid-10" /\
  exists results : list _MockSearchResult.t,
    (search ascii_lower "Deploy complete" 10
       (store_default "event" "Deploy complete" w10).2).1 = Ok results /\
    map _MockSearchResult.node_id results
      = ["uuid-0"; "uuid-1"; "uuid-2"; "uuid-3"; "uuid-4"; "uuid-5"; "uuid-6";
         "uuid-7"; "uuid-8"; "uuid-9"] /\
    ~ In "uuid-10" (map _MockSearchResult.node_id results).
Proof.
  split; [reflexivity|]. eexists. split; [vm_compute; reflexivity|].
  split; [reflexivity|].
  simpl. intros H. repeat (destruct H as [H|H]; [discriminate H|]). exact H.
Qed.

(** C3, as the code has it. Two consecutive [briefing_full] calls return
    the same text, and so does a call after an intervening [store] by the
    same agent; the mock has no cache, and every call reports
    [cached = False]. *)
Theorem briefing_full_never_cached (agent_id : string) (compact : bool)
  (w : World) :
  (exists b1 b2 : _MockBriefing.t,
     (b1 <- briefing_full agent_id compact ;;
      b2 <- briefing_full agent_id compact ;;
      ret (b1, b2)) w = (Ok (b1, b2), w) /\
     _MockBriefing.text b1 = _MockBriefing.text b2 /\
     _MockBriefing.cached b1 = false /\
     _MockBriefing.cached b2 = false) /\
  (forall (kind title body : string) (tags : option (list string))
     (importance : float) (metadata : option (PyDict.t string)),
     exists (b1 b3 : _MockBriefing.t) (w' : World),
       (b1 <- briefing_full agent_id compact ;;
        store kind title body tags importance metadata agent_id ;;;
        b3 <- briefing_full agent_id compact ;;
        ret (b1, b3)) w = (Ok (b1, b3), w') /\
       _MockBriefing.text b1 = _MockBriefing.text b3 /\
       _MockBriefing.cached b3 = false).
Proof.
  split.
  - eexists _, _. split; [reflexivity|]. repeat split.
  - intros. eexists _, _, _. split; [reflexivity|]. repeat split.
Qed.

(** C3 fails on the code: on a new [MockCortex], the second of two
    consecutive [briefing_full("kai")] calls reports [cached = False], not
    [True]. *)
Lemma briefing_full_second_call_not_cached :
  exists b1 b2 : _MockBriefing.t,
    (b1 <- briefing_full "kai" false ;;
     b2 <- briefing_full "kai" false ;;
     ret (b1, b2)) w0 = (Ok (b1, b2), w0) /\
    _MockBriefing.text b1 = "[Mock briefing for kai]" /\
    _MockBriefing.text b2 = "[Mock briefing for kai]" /\
    _MockBriefing.cached b2 = false /\
    _MockBriefing.cached b2 <> true.
Proof.
  eexists _, _. split; [reflexivity|]. repeat split. discriminate.
Qed.

(** [search_hybrid] ignores [anchor_ids] altogether. *)
Lemma search_hybrid_any_anchors (lower : string -> string) (query : string)
  (anchor_ids : option (list string)) (limit : Z) (w : World) :
  search_hybrid lower query anchor_ids limit w = search lower query limit w.
Proof. reflexivity. Qed.

(** C5. With no anchors, given as [None] (the default) or as the empty
    list, [search_hybrid] returns what [search] returns for the same query
    and limit: the same results in the same order, in the same world. *)
Theorem search_hybrid_no_anchors (lower : string -> string) (query : string)
  (limit : Z) (w : World) :
  search_hybrid lower query None limit w = search lower query limit w /\
  search_hybrid lower query (Some []) limit w = search lower query limit w.
Proof. split; apply search_hybrid_any_anchors. Qed.

(** C6. The results of [search] are in descending order of score, and any
    two results of equal score stand in the order in which their nodes
    stand in the node dictionary, which is the order of insertion. *)
Theorem search_order (lower : string -> string) (query : string) (limit : Z)
  (w : World) :
  exists results : list _MockSearchResult.t,
    search lower query limit w = (Ok results, w) /\
    forall (i j : nat) (ri rj : _MockSearchResult.t),
      (i < j)%nat -> results !! i = Some ri -> results !! j = Some rj ->
      PrimFloat.leb (_MockSearchResult.score rj) (_MockSearchResult.score ri)
        = true /\
      (PrimFloat.eqb (_MockSearchResult.score ri) (_MockSearchResult.score rj)
         = true ->
       exists (p p' : nat) (ni nj : NodeData.t),
         (p < p')%nat /\
         PyDict.values (_nodes (self w)) !! p = Some ni /\
         PyDict.values (_nodes (self w)) !! p' = Some nj /\
         ri = _MockSearchResult.__init__ 0.9%float (_MockNode.__init__ ni) /\
         rj = _MockSearchResult.__init__ 0.9%float (_MockNode.__init__ nj)).
Proof.
  rewrite search_eq. eexists. split; [reflexivity|].
  intros i j ri rj Hij Hi Hj.
  destruct (slice_to_is_take limit
              (map (fun n => _MockSearchResult.__init__ 0.9%float
                               (_MockNode.__init__ n))
                 (matching lower query (self w)))) as [m Hm].
  rewrite Hm in Hi, Hj.
  apply lookup_take_Some in Hi as [Hi _]. apply lookup_take_Some in Hj as [Hj _].
  apply lookup_map_inv in Hi as (ni & Hi & ->).
  apply lookup_map_inv in Hj as (nj & Hj & ->).
  split; [reflexivity|]. intros _.
  destruct (lookup_filter_order _ _ i j ni nj Hij Hi Hj)
    as (p & p' & Hlt & Hp & Hp').
  exists p, p', ni, nj. auto.
Qed.

(** C8. A [search] whose query matches no stored node returns the empty
    list and raises nothing; [briefing] returns its placeholder text for
    every agent, whatever is stored, and raises nothing. *)
Theorem empty_results_are_not_errors (lower : string -> string)
  (query : string) (limit : Z) (agent_id : string) (compact : bool)
  (w : World) :
  (forall n : NodeData.t,
     In n (PyDict.values (_nodes (self w))) ->
     is_match lower (lower query) n = false) ->
  search lower query limit w = (Ok [], w) /\
  briefing agent_id compact w
    = (Ok ("[Mock briefing for " ++ agent_id ++ "]"), w).
Proof.
  intros Hnone. split; [|reflexivity].
  rewrite search_eq. unfold matching.
  replace (List.filter (is_match lower (lower query))
             (PyDict.values (_nodes (self w)))) with (@nil NodeData.t).
  - simpl. rewrite slice_to_nil. reflexivity.
  - symmetry. induction (PyDict.values (_nodes (self w))) as [|a l IH];
      simpl; [reflexivity|].
    rewrite (Hnone a (or_introl eq_refl)).
    apply IH. intros n Hn. apply Hnone. right. exact Hn.
Qed.

Lemma empty_results_are_not_errors_witness :
  (forall n : NodeData.t,
     In n (PyDict.values (_nodes (self w2))) ->
     is_match ascii_lower (ascii_lower "zyx-no-match-xyz") n = false) /\
  search ascii_lower "zyx-no-match-xyz" 10 w2 = (Ok [], w2) /\
  briefing "kai" false w2 = (Ok ("[Mock briefing for " ++ "kai" ++ "]"), w2).
Proof.
  assert (H : forall n : NodeData.t,
     In n (PyDict.values (_nodes (self w2))) ->
     is_match ascii_lower (ascii_lower "zyx-no-match-xyz") n = false).
  { intros n [<-|[<-|[]]]; reflexivity. }
  split; [exact H|].
  exact (empty_results_are_not_errors ascii_lower "zyx-no-match-xyz" 10 "kai"
           false w2 H).
Defined.

(** C9. Whatever has been stored, [traverse] returns a result whose node
    list and edge list are both empty, and leaves the world as it was. *)
Theorem traverse_empty (node_id : string) (depth : Z) (direction : string)
  (w : World) :
  exists result : TraverseResult.t,
    traverse node_id depth direction w = (Ok result, w) /\
    TraverseResult.nodes result = [] /\
    TraverseResult.edges result = [].
Proof. eexists. repeat split. Qed.

(** * Further properties of the mock *)

(** Proves [NoDup] of a list of distinct string literals. *)
Ltac distinct_strings :=
  repeat (apply NoDup_cons_2;
          [ let H := fresh "Hin" in
            intros H; apply list_elem_of_In in H; simpl in H;
            repeat (destruct H as [H|H]; [discriminate H|]); exact H
          | ]);
  apply NoDup_nil_2.

(** ** Steps and runs *)

Lemma step_store (lower : string -> string) (kind title body : string)
  (tags : option (list string)) (importance : float)
  (metadata : option (PyDict.t string)) (source_agent : string) (w : World) :
  step lower (Store kind title body tags importance metadata source_agent) w
  = ((store kind title body tags importance metadata source_agent w).2,
     [entropy w 0%nat]).
Proof. reflexivity. Qed.

Lemma run_cons (lower : string -> string) (c : call) (cs : list call)
  (w : World) :
  run lower (c :: cs) w
  = ((run lower cs (step lower c w).1).1,
     ((step lower c w).2 ++ (run lower cs (step lower c w).1).2)%list).
Proof.
  cbn [run]. destruct (step lower c w) as [w1 issued1]. cbn [fst snd].
  destruct (run lower cs w1) as [w2 issued2]. reflexivity.
Qed.

(** Case analysis on a call: it is a [store], or it leaves the world alone
    and logs nothing. *)
Lemma call_cases (lower : string -> string) (c : call) :
  (exists k t b tg i m s, c = Store k t b tg i m s)
  \/ ((forall w, step lower c w = (w, [])) /\ store_log_entry c = []).
Proof.
  destruct c; try (right; split;
    [intros w; apply step_not_store; intros; discriminate | reflexivity]).
  left. eauto 10.
Qed.

Lemma run_call_log (lower : string -> string) (cs : list call) :
  forall w : World,
    _call_log (self (run lower cs w).1)
    = (_call_log (self w) ++ flat_map store_log_entry cs)%list.
Proof.
  induction cs as [|c cs IH]; intros w.
  - simpl. rewrite app_nil_r. reflexivity.
  - rewrite run_cons. cbn [fst]. rewrite IH.
    destruct (call_cases lower c) as [(k & t & b & tg & i & m & s & ->)|[Hw Hl]].
    + rewrite step_store, store_eq. cbn [fst snd self _call_log].
      simpl. rewrite <- app_assoc. reflexivity.
    + rewrite Hw. simpl. rewrite Hl. reflexivity.
Qed.

Lemma run_issued_length (lower : string -> string) (cs : list call) :
  forall w : World,
    length (run lower cs w).2 = length (flat_map store_log_entry cs).
Proof.
  induction cs as [|c cs IH]; intros w; [reflexivity|].
  rewrite run_cons. cbn [snd]. rewrite length_app, IH.
  destruct (call_cases lower c) as [(k & t & b & tg & i & m & s & ->)|[Hw Hl]].
  - rewrite step_store. reflexivity.
  - rewrite Hw. simpl. rewrite Hl. reflexivity.
Qed.

Lemma dict_set_length_le {V : Type} (k : string) (v : V) (d : PyDict.t V) :
  (length (PyDict.set k v d) <= S (length d))%nat.
Proof.
  induction d as [|[k' v'] d IH]; simpl; [lia|].
  destruct (String.eqb k k'); simpl; lia.
Qed.

Lemma run_len_le (lower : string -> string) (cs : list call) :
  forall w : World,
    (PyDict.len (_nodes (self (run lower cs w).1))
     <= PyDict.len (_nodes (self w)) + length (flat_map store_log_entry cs))%nat.
Proof.
  induction cs as [|c cs IH]; intros w; [simpl; lia|].
  rewrite run_cons. cbn [fst].
  specialize (IH (step lower c w).1).
  destruct (call_cases lower c) as [(k & t & b & tg & i & m & s & ->)|[Hw Hl]].
  - rewrite step_store in *. rewrite store_eq in *. cbn [fst snd self _nodes] in *.
    pose proof (dict_set_length_le (entropy w 0%nat)
      (node_record (entropy w 0%nat) k t b tg i m s) (_nodes (self w))) as Hle.
    unfold PyDict.len in *. simpl. lia.
  - rewrite Hw in *. simpl in *. rewrite Hl. exact IH.
Qed.

Lemma log_entry_is_spec (kind title : string) (e : string * string * string) :
  log_entry_is kind title e = true <-> e = ("store", kind, title).
Proof.
  destruct e as [[e0 e1] e2]. unfold log_entry_is. split.
  - intros H. apply andb_prop in H as [H H2]. apply andb_prop in H as [H0 H1].
    apply String.eqb_eq in H0, H1, H2. subst. reflexivity.
  - intros [= -> -> ->]. rewrite !String.eqb_refl. reflexivity.
Qed.

Lemma logged_iff_stored (kind title : string) (cs : list call) :
  existsb (log_entry_is kind title) (flat_map store_log_entry cs) = true
  <-> exists b tg i m s, In (Store kind title b tg i m s) cs.
Proof.
  rewrite existsb_exists. split.
  - intros (e & Hin & He). apply log_entry_is_spec in He. subst e.
    apply in_flat_map in Hin as (c & Hc & Hin).
    destruct c; simpl in Hin; try contradiction.
    destruct Hin as [[= <- <-]|[]]. eauto 10.
  - intros (b & tg & i & m & s & Hin). exists ("store", kind, title). split.
    + apply in_flat_map. eexists. split; [exact Hin|]. left. reflexivity.
    + apply log_entry_is_spec. reflexivity.
Qed.

(** X1. After any sequence of calls on a new [MockCortex], [assert_stored]
    returns normally exactly when the sequence holds a [store] call with
    this very [kind] and this very [title]; otherwise it raises
    [AssertionError]. Either way it leaves the object as it was. *)
Theorem assert_stored_iff_stored (lower : string -> string) (cs : list call)
  (uuids : nat -> string) (kind title : string) :
  ((exists b tg i m s, In (Store kind title b tg i m s) cs) ->
   assert_stored kind title (run lower cs (new_world uuids)).1
   = (Ok tt, (run lower cs (new_world uuids)).1)) /\
  ((forall b tg i m s, ~ In (Store kind title b tg i m s) cs) ->
   assert_stored kind title (run lower cs (new_world uuids)).1
   = (Raise AssertionError, (run lower cs (new_world uuids)).1)).
Proof.
  unfold assert_stored, bind, get_self. rewrite run_call_log. simpl.
  destruct (existsb _ _) eqn:Hex; split; intros H; try reflexivity.
  - exfalso. apply logged_iff_stored in Hex
      as (b & tg & i & m & s & Hin). exact (H b tg i m s Hin).
  - exfalso. apply not_true_iff_false in Hex. apply Hex.
    apply logged_iff_stored. exact H.
Qed.

(** X2. After any sequence of calls on a new [MockCortex],
    [assert_not_stored] raises [AssertionError] exactly when the sequence
    holds a [store] call with this [kind] and [title], and returns normally
    otherwise. *)
Theorem assert_not_stored_iff_not_stored (lower : string -> string)
  (cs : list call) (uuids : nat -> string) (kind title : string) :
  ((exists b tg i m s, In (Store kind title b tg i m s) cs) ->
   assert_not_stored kind title (run lower cs (new_world uuids)).1
   = (Raise AssertionError, (run lower cs (new_world uuids)).1)) /\
  ((forall b tg i m s, ~ In (Store kind title b tg i m s) cs) ->
   assert_not_stored kind title (run lower cs (new_world uuids)).1
   = (Ok tt, (run lower cs (new_world uuids)).1)).
Proof.
  unfold assert_not_stored, bind, get_self. rewrite run_call_log. simpl.
  destruct (existsb _ _) eqn:Hex; split; intros H; try reflexivity.
  - exfalso. apply logged_iff_stored in Hex
      as (b & tg & i & m & s & Hin). exact (H b tg i m s Hin).
  - exfalso. apply not_true_iff_false in Hex. apply Hex.
    apply logged_iff_stored. exact H.
Qed.

(** X3. A sequence of calls without a [store] leaves the world exactly as
    it found it and issues no id: [search], [search_hybrid], [briefing],
    [briefing_full], [get_node], [traverse] and the two assertion helpers
    change neither the nodes nor the call log, and draw no UUID. *)
Theorem run_without_store (lower : string -> string) (cs : list call)
  (w : World) :
  (forall c, In c cs -> forall k t b tg i m s, c <> Store k t b tg i m s) ->
  run lower cs w = (w, []).
Proof.
  induction cs as [|c cs IH]; intros Hcs; [reflexivity|].
  rewrite run_cons.
  rewrite (step_not_store lower c w (Hcs c (or_introl eq_refl))).
  cbn [fst snd]. rewrite IH; [reflexivity|].
  intros c' Hc'. apply Hcs. right. exact Hc'.
Qed.

Lemma run_without_store_witness :
  (forall c,
     In c [Search "rate limit" 10; GetNode "uuid-0"; Briefing "kai" true;
           Traverse "uuid-0" 2 "both"; AssertStored "fact" "Never stored"] ->
     forall k t b tg i m s, c <> Store k t b tg i m s) /\
  run ascii_lower
    [Search "rate limit" 10; GetNode "uuid-0"; Briefing "kai" true;
     Traverse "uuid-0" 2 "both"; AssertStored "fact" "Never stored"] w2
  = (w2, []).
Proof.
  assert (H : forall c,
     In c [Search "rate limit" 10; GetNode "uuid-0"; Briefing "kai" true;
           Traverse "uuid-0" 2 "both"; AssertStored "fact" "Never stored"] ->
     forall k t b tg i m s, c <> Store k t b tg i m s).
  { intros c Hc k t b tg i m s.
    repeat (destruct Hc as [<-|Hc]; [discriminate|]). destruct Hc. }
  split; [exact H|].
  exact (run_without_store ascii_lower _ w2 H).
Defined.

(** X4. After any sequence of calls on a new [MockCortex], the call log
    has exactly one entry per [store] call, in the order of the calls, and
    the store never holds more nodes than there were [store] calls. *)
Theorem log_and_node_counts (lower : string -> string) (cs : list call)
  (uuids : nat -> string) :
  _call_log (self (run lower cs (new_world uuids)).1)
  = flat_map store_log_entry cs /\
  (PyDict.len (_nodes (self (run lower cs (new_world uuids)).1))
   <= length (flat_map store_log_entry cs))%nat.
Proof.
  split.
  - rewrite run_call_log. reflexivity.
  - pose proof (run_len_le lower cs (new_world uuids)) as H. simpl in H.
    exact H.
Qed.

(** X5. When the UUIDs drawn during a sequence of calls on a new
    [MockCortex] are pairwise distinct, the store holds exactly one node per
    [store] call, and [briefing_full] reports that number as
    [nodes_consulted]. *)
Theorem node_count_is_store_count (lower : string -> string) (cs : list call)
  (uuids : nat -> string) (agent_id : string) (compact : bool) :
  NoDup (run lower cs (new_world uuids)).2 ->
  PyDict.len (_nodes (self (run lower cs (new_world uuids)).1))
  = length (flat_map store_log_entry cs) /\
  exists b : _MockBriefing.t,
    briefing_full agent_id compact (run lower cs (new_world uuids)).1
    = (Ok b, (run lower cs (new_world uuids)).1) /\
    _MockBriefing.nodes_consulted b = length (flat_map store_log_entry cs).
Proof.
  intros Hnd.
  assert (Hlen : PyDict.len (_nodes (self (run lower cs (new_world uuids)).1))
                 = length (flat_map store_log_entry cs)).
  { rewrite <- (run_issued_length lower cs (new_world uuids)).
    unfold PyDict.len. rewrite <- (length_map fst).
    change (map fst ?d) with (PyDict.keys d).
    rewrite (run_keys_in_issue_order lower cs (new_world uuids) Hnd).
    reflexivity. }
  split; [exact Hlen|].
  eexists. split; [reflexivity|]. simpl. exact Hlen.
Qed.

Lemma node_count_is_store_count_witness :
  NoDup (run ascii_lower (two_nodes ++ [Search "rate limit" 10])
           (new_world test_uuids)).2 /\
  PyDict.len (_nodes (self (run ascii_lower
    (two_nodes ++ [Search "rate limit" 10]) (new_world test_uuids)).1))
  = length (flat_map store_log_entry (two_nodes ++ [Search "rate limit" 10])) /\
  exists b : _MockBriefing.t,
    briefing_full "kai" false (run ascii_lower
      (two_nodes ++ [Search "rate limit" 10]) (new_world test_uuids)).1
    = (Ok b, (run ascii_lower (two_nodes ++ [Search "rate limit" 10])
                (new_world test_uuids)).1) /\
    _MockBriefing.nodes_consulted b
    = length (flat_map store_log_entry (two_nodes ++ [Search "rate limit" 10])).
Proof.
  assert (H : NoDup (run ascii_lower (two_nodes ++ [Search "rate limit" 10])
                       (new_world test_uuids)).2).
  { vm_compute. distinct_strings. }
  split; [exact H|].
  exact (node_count_is_store_count ascii_lower _ test_uuids "kai" false H).
Defined.

(** ** Substrings *)

Lemma contains_unfold (sub s : string) :
  contains sub s
  = (String.prefix sub s
     || match s with
        | EmptyString => false
        | String _ s' => contains sub s'
        end).
Proof. destruct s; reflexivity. Qed.

Lemma prefix_spec (sub : string) :
  forall s : string,
    String.prefix sub s = true <-> exists post, s = sub ++ post.
Proof.
  induction sub as [|c sub IH]; intros s.
  - split; [intros _; exists s; reflexivity | intros _; destruct s; reflexivity].
  - destruct s as [|c' s]; simpl.
    + split; [discriminate | intros [post H]; discriminate H].
    + destruct (ascii_dec c c') as [->|Hne].
      * rewrite IH. split; intros [post H]; exists post.
        -- rewrite H. reflexivity.
        -- injection H as H. exact H.
      * split; [discriminate|]. intros [post H]. injection H as Hc _.
        congruence.
Qed.

(** [contains] is Python's [in] on strings: [sub] occurs in [s] exactly
    when [s] is some text, then [sub], then some text. *)
Lemma contains_spec (sub s : string) :
  contains sub s = true <-> exists pre post, s = pre ++ sub ++ post.
Proof.
  split.
  - induction s as [|c s IH]; rewrite contains_unfold; intros H;
      apply orb_prop in H as [H|H].
    + apply prefix_spec in H as [post ->]. exists "", post. reflexivity.
    + discriminate H.
    + apply prefix_spec in H as [post ->]. exists "", post. reflexivity.
    + destruct (IH H) as (pre & post & ->).
      exists (String c pre), post. reflexivity.
  - intros (pre & post & ->). induction pre as [|c pre IH];
      rewrite contains_unfold.
    + simpl. replace (String.prefix sub (sub ++ post)) with true;
        [reflexivity|]. symmetry. apply prefix_spec. eauto.
    + simpl. rewrite IH. apply orb_true_r.
Qed.

Lemma in_take {A : Type} (m : nat) (l : list A) (x : A) :
  In x (take m l) -> In x l.
Proof.
  revert m. induction l as [|a l IH]; intros [|m]; simpl; try tauto.
  intros [->|H]; [left; reflexivity | right; exact (IH m H)].
Qed.

Lemma is_match_spec (lower : string -> string) (q : string) (n : NodeData.t) :
  is_match lower q n = true
  <-> exists pre post,
        lower (NodeData.title n) = pre ++ q ++ post
        \/ lower (NodeData.body n) = pre ++ q ++ post.
Proof.
  unfold is_match. rewrite orb_true_iff, !contains_spec. split.
  - intros [(pre & post & H)|(pre & post & H)]; exists pre, post; auto.
  - intros (pre & post & [H|H]); [left | right]; eauto.
Qed.

(** ** More on [search] *)

(** X6. A [search] with a limit that is not negative returns the first
    [limit] matches, or all of them when there are fewer: never more than
    [limit] results. *)
Theorem search_respects_limit (lower : string -> string) (query : string)
  (limit : Z) (w : World) :
  0 <= limit ->
  exists results : list _MockSearchResult.t,
    search lower query limit w = (Ok results, w) /\
    length results
    = Nat.min (Z.to_nat limit) (length (matching lower query (self w))) /\
    Z.of_nat (length results) <= limit.
Proof.
  intros Hlimit. rewrite search_eq. eexists. split; [reflexivity|].
  unfold slice_to. destruct (Z.leb_spec 0 limit) as [_|Hneg]; [|lia].
  rewrite length_take, length_map. split; lia.
Qed.

Lemma search_respects_limit_witness :
  0 <= 3 /\
  exists results : list _MockSearchResult.t,
    search ascii_lower "deploy" 3 w10 = (Ok results, w10) /\
    length results
    = Nat.min (Z.to_nat 3) (length (matching ascii_lower "deploy" (self w10))) /\
    Z.of_nat (length results) <= 3.
Proof.
  split; [lia|].
  apply (search_respects_limit ascii_lower "deploy" 3 w10). lia.
Defined.

(** X7. A [search] with a negative limit does not fail: the slice
    [matches[:limit]] drops the last [-limit] matches and returns the
    earlier ones (none when there are at most [-limit] matches). *)
Theorem search_negative_limit (lower : string -> string) (query : string)
  (limit : Z) (w : World) :
  limit < 0 ->
  exists results : list _MockSearchResult.t,
    search lower query limit w = (Ok results, w) /\
    length results
    = (length (matching lower query (self w)) - Z.to_nat (- limit))%nat /\
    results
    = take (length results)
        (map (fun n => _MockSearchResult.__init__ 0.9%float
                         (_MockNode.__init__ n))
           (matching lower query (self w))).
Proof.
  intros Hlimit. rewrite search_eq. eexists. split; [reflexivity|].
  unfold slice_to. destruct (Z.leb_spec 0 limit) as [Hpos|_]; [lia|].
  rewrite length_take, length_map. split; [lia|].
  f_equal. lia.
Qed.

Lemma search_negative_limit_witness :
  -1 < 0 /\
  exists results : list _MockSearchResult.t,
    search ascii_lower "deploy" (-1) w10 = (Ok results, w10) /\
    length results
    = (length (matching ascii_lower "deploy" (self w10)) - Z.to_nat (- -1))%nat /\
    results
    = take (length results)
        (map (fun n => _MockSearchResult.__init__ 0.9%float
                         (_MockNode.__init__ n))
           (matching ascii_lower "deploy" (self w10))).
Proof.
  split; [lia|].
  apply (search_negative_limit ascii_lower "deploy" (-1) w10). lia.
Defined.

(** X8. Every result of [search] is a stored node, returned with score
    0.9, whose lowered title or lowered body contains the lowered query as
    a contiguous substring. *)
Theorem search_sound (lower : string -> string) (query : string) (limit : Z)
  (w : World) :
  exists results : list _MockSearchResult.t,
    search lower query limit w = (Ok results, w) /\
    forall r : _MockSearchResult.t,
      In r results ->
      exists n : NodeData.t,
        In n (PyDict.values (_nodes (self w))) /\
        r = _MockSearchResult.__init__ 0.9%float (_MockNode.__init__ n) /\
        exists pre post : string,
          lower (NodeData.title n) = pre ++ lower query ++ post
          \/ lower (NodeData.body n) = pre ++ lower query ++ post.
Proof.
  rewrite search_eq. eexists. split; [reflexivity|]. intros r Hr.
  destruct (slice_to_is_take limit
              (map (fun n => _MockSearchResult.__init__ 0.9%float
                               (_MockNode.__init__ n))
                 (matching lower query (self w)))) as [m Hm].
  rewrite Hm in Hr. apply in_take in Hr.
  apply in_map_iff in Hr as (n & <- & Hn).
  unfold matching in Hn. apply filter_In in Hn as [Hn Hmatch].
  exists n. split; [exact Hn|]. split; [reflexivity|].
  apply is_match_spec. exact Hmatch.
Qed.

(** X9. When [limit] is at least the number of matching nodes, [search]
    misses none of them: every stored node whose lowered title or lowered
    body contains the lowered query is among the results. *)
Theorem search_complete (lower : string -> string) (query : string)
  (limit : Z) (w : World) (n : NodeData.t) (pre post : string) :
  Z.of_nat (length (matching lower query (self w))) <= limit ->
  In n (PyDict.values (_nodes (self w))) ->
  lower (NodeData.title n) = pre ++ lower query ++ post
  \/ lower (NodeData.body n) = pre ++ lower query ++ post ->
  exists results : list _MockSearchResult.t,
    search lower query limit w = (Ok results, w) /\
    In (_MockSearchResult.__init__ 0.9%float (_MockNode.__init__ n)) results.
Proof.
  intros Hlimit Hn Hocc. rewrite search_eq. eexists. split; [reflexivity|].
  rewrite slice_to_all by (rewrite length_map; exact Hlimit).
  apply (in_map (fun n => _MockSearchResult.__init__ 0.9%float
                            (_MockNode.__init__ n))).
  unfold matching. apply filter_In. split; [exact Hn|].
  apply is_match_spec. eauto.
Qed.

Lemma search_complete_witness :
  Z.of_nat (length (matching ascii_lower "LIMIT is" (self w2))) <= 5 /\
  In (node_record "uuid-0" "fact" "Rate limit is 1000/min" "" None 0.5%float
        None "")
    (PyDict.values (_nodes (self w2))) /\
  (ascii_lower (NodeData.title
      (node_record "uuid-0" "fact" "Rate limit is 1000/min" "" None 0.5%float
         None ""))
   = "rate " ++ ascii_lower "LIMIT is" ++ " 1000/min"
   \/ ascii_lower (NodeData.body
      (node_record "uuid-0" "fact" "Rate limit is 1000/min" "" None 0.5%float
         None ""))
      = "rate " ++ ascii_lower "LIMIT is" ++ " 1000/min") /\
  exists results : list _MockSearchResult.t,
    search ascii_lower "LIMIT is" 5 w2 = (Ok results, w2) /\
    In (_MockSearchResult.__init__ 0.9%float (_MockNode.__init__
          (node_record "uuid-0" "fact" "Rate limit is 1000/min" "" None
             0.5%float None ""))) results.
Proof.
  assert (H1 : Z.of_nat (length (matching ascii_lower "LIMIT is" (self w2)))
               <= 5) by (vm_compute; discriminate).
  assert (H2 : In (node_record "uuid-0" "fact" "Rate limit is 1000/min" ""
                     None 0.5%float None "")
                 (PyDict.values (_nodes (self w2)))) by (left; reflexivity).
  assert (H3 : ascii_lower (NodeData.title
      (node_record "uuid-0" "fact" "Rate limit is 1000/min" "" None 0.5%float
         None ""))
   = "rate " ++ ascii_lower "LIMIT is" ++ " 1000/min"
   \/ ascii_lower (NodeData.body
      (node_record "uuid-0" "fact" "Rate limit is 1000/min" "" None 0.5%float
         None ""))
      = "rate " ++ ascii_lower "LIMIT is" ++ " 1000/min")
    by (left; reflexivity).
  repeat split; [exact H1 | exact H2 | exact H3 |].
  exact (search_complete ascii_lower "LIMIT is" 5 w2 _ _ _ H1 H2 H3).
Defined.

Lemma filter_all {A : Type} (P : A -> bool) (l : list A) :
  (forall x, In x l -> P x = true) -> List.filter P l = l.
Proof.
  induction l as [|a l IH]; intros H; simpl; [reflexivity|].
  rewrite (H a (or_introl eq_refl)). f_equal. apply IH.
  intros x Hx. apply H. right. exact Hx.
Qed.

(** X10. The empty query matches every node: when lowering the empty
    string gives the empty string, [search("")] returns the stored nodes in
    insertion order, cut by the slice like any other result. *)
Theorem search_empty_query (lower : string -> string) (limit : Z) (w : World) :
  lower "" = "" ->
  search lower "" limit w
  = (Ok (slice_to limit
           (map (fun n => _MockSearchResult.__init__ 0.9%float
                            (_MockNode.__init__ n))
              (PyDict.values (_nodes (self w))))), w).
Proof.
  intros Hlower. rewrite search_eq. unfold matching. rewrite filter_all.
  - reflexivity.
  - intros n _. apply is_match_spec. rewrite Hlower.
    exists "", (lower (NodeData.title n)). left. reflexivity.
Qed.

Lemma search_empty_query_witness :
  ascii_lower "" = "" /\
  search ascii_lower "" 10 w2
  = (Ok (slice_to 10
           (map (fun n => _MockSearchResult.__init__ 0.9%float
                            (_MockNode.__init__ n))
              (PyDict.values (_nodes (self w2))))), w2).
Proof.
  split; [reflexivity|].
  apply (search_empty_query ascii_lower 10 w2). reflexivity.
Defined.

(** X11. Read-your-writes for any matching query: after [store], a
    [search] for a query whose lowered text occurs in the lowered title of
    the new node, or in its lowered stored body (the body given, or the
    title when none was given), returns that node, provided [limit] is at
    least the number of matching nodes. *)
Theorem search_finds_substring (lower : string -> string)
  (kind title body : string) (tags : option (list string))
  (importance : float) (metadata : option (PyDict.t string))
  (source_agent : string) (query pre post : string) (limit : Z) (w : World) :
  lower title = pre ++ lower query ++ post
  \/ lower (if String.eqb body "" then title else body)
     = pre ++ lower query ++ post ->
  Z.of_nat (length (matching lower query
    (self (store kind title body tags importance metadata source_agent w).2)))
    <= limit ->
  exists (node_id : string) (w' : World) (results : list _MockSearchResult.t),
    store kind title body tags importance metadata source_agent w
      = (Ok node_id, w') /\
    search lower query limit w' = (Ok results, w') /\
    In (_MockSearchResult.__init__ 0.9%float (_MockNode.__init__
          (node_record node_id kind title body tags importance metadata
             source_agent))) results.
Proof.
  intros Hocc. rewrite store_eq. cbn [snd self]. intros Hlimit.
  eexists _, _, _. split; [reflexivity|]. rewrite search_eq. cbn [self].
  split; [reflexivity|].
  rewrite slice_to_all by (rewrite length_map; exact Hlimit).
  apply (in_map (fun n => _MockSearchResult.__init__ 0.9%float
                            (_MockNode.__init__ n))).
  unfold matching. apply filter_In. split.
  - cbn [_nodes]. apply (dict_values_In (entropy w 0%nat)).
    apply dict_get_Some_In. apply dict_get_set_eq.
  - apply is_match_spec. exists pre, post.
    cbn [node_record NodeData.title NodeData.body]. exact Hocc.
Qed.

Lemma search_finds_substring_witness :
  (ascii_lower "Short title" = "" ++ ascii_lower "DETAILED body" ++ " content here"
   \/ ascii_lower (if String.eqb "Detailed body content here" ""
                   then "Short title" else "Detailed body content here")
      = "" ++ ascii_lower "DETAILED body" ++ " content here") /\
  Z.of_nat (length (matching ascii_lower "DETAILED body"
    (self (store "note" "Short title" "Detailed body content here" None
             0.5%float None "" w2).2))) <= 10 /\
  exists (node_id : string) (w' : World) (results : list _MockSearchResult.t),
    store "note" "Short title" "Detailed body content here" None 0.5%float
      None "" w2 = (Ok node_id, w') /\
    search ascii_lower "DETAILED body" 10 w' = (Ok results, w') /\
    In (_MockSearchResult.__init__ 0.9%float (_MockNode.__init__
          (node_record node_id "note" "Short title"
             "Detailed body content here" None 0.5%float None ""))) results.
Proof.
  assert (H1 : ascii_lower "Short title"
               = "" ++ ascii_lower "DETAILED body" ++ " content here"
   \/ ascii_lower (if String.eqb "Detailed body content here" ""
                   then "Short title" else "Detailed body content here")
      = "" ++ ascii_lower "DETAILED body" ++ " content here")
    by (right; reflexivity).
  assert (H2 : Z.of_nat (length (matching ascii_lower "DETAILED body"
    (self (store "note" "Short title" "Detailed body content here" None
             0.5%float None "" w2).2))) <= 10) by (vm_compute; discriminate).
  split; [exact H1|]. split; [exact H2|].
  exact (search_finds_substring ascii_lower "note" "Short title"
           "Detailed body content here" None 0.5%float None ""
           "DETAILED body" "" " content here" 10 w2 H1 H2).
Defined.

(** X12. Raising the limit only adds results at the end: for limits
    [0 <= l1 <= l2], the results of [search] with limit [l1] are a prefix of
    the results with limit [l2] in the same world. *)
Theorem search_limit_monotone (lower : string -> string) (query : string)
  (l1 l2 : Z) (w : World) :
  0 <= l1 -> l1 <= l2 ->
  exists r1 r2 : list _MockSearchResult.t,
    search lower query l1 w = (Ok r1, w) /\
    search lower query l2 w = (Ok r2, w) /\
    r1 `prefix_of` r2.
Proof.
  intros H1 H12. rewrite !search_eq. eexists _, _.
  split; [reflexivity|]. split; [reflexivity|].
  unfold slice_to.
  destruct (Z.leb_spec 0 l1) as [_|Hneg]; [|lia].
  destruct (Z.leb_spec 0 l2) as [_|Hneg]; [|lia].
  replace (Z.to_nat l1) with (Nat.min (Z.to_nat l1) (Z.to_nat l2)) by lia.
  rewrite <- take_take. apply prefix_take.
Qed.

Lemma search_limit_monotone_witness :
  0 <= 3 /\ 3 <= 7 /\
  exists r1 r2 : list _MockSearchResult.t,
    search ascii_lower "COMPLETE" 3 w10 = (Ok r1, w10) /\
    search ascii_lower "COMPLETE" 7 w10 = (Ok r2, w10) /\
    r1 `prefix_of` r2.
Proof.
  split; [lia|]. split; [lia|].
  apply (search_limit_monotone ascii_lower "COMPLETE" 3 7 w10); lia.
Defined.

(** ** Briefings *)

Lemma append_last_inj (c : ascii) (x : string) :
  forall y : string, x ++ String c "" = y ++ String c "" -> x = y.
Proof.
  induction x as [|a x IH]; intros [|b y]; simpl; intros H.
  - reflexivity.
  - injection H as _ H. destruct y; discriminate H.
  - injection H as _ H. destruct x; discriminate H.
  - injection H as -> H. f_equal. exact (IH y H).
Qed.

(** X13. [briefing] never raises and never returns an empty text: for
    every agent, flag and store it returns a text that contains the agent
    id, and [briefing_full] carries the same text. Neither the [compact]
    flag nor the stored nodes change it. *)
Theorem briefing_mentions_agent (agent_id : string) (compact : bool)
  (w : World) :
  exists (text : string) (b : _MockBriefing.t),
    briefing agent_id compact w = (Ok text, w) /\
    briefing_full agent_id compact w = (Ok b, w) /\
    _MockBriefing.text b = text /\
    text <> "" /\
    contains agent_id text = true /\
    forall (compact' : bool) (w' : World),
      briefing agent_id compact' w' = (Ok text, w').
Proof.
  eexists _, _. split; [reflexivity|]. split; [reflexivity|].
  split; [reflexivity|]. split; [discriminate|]. split; [|reflexivity].
  apply contains_spec. exists "[Mock briefing for ", "]". reflexivity.
Qed.

(** X14. Different agents get different briefings: two [briefing] calls
    that return the same text were made for the same agent id. *)
Theorem briefing_distinct_agents (a1 a2 : string) (c1 c2 : bool)
  (w1 w2 : World) :
  (briefing a1 c1 w1).1 = (briefing a2 c2 w2).1 -> a1 = a2.
Proof.
  unfold briefing, ret. cbn [fst]. intros [= H].
  apply append_last_inj in H. exact H.
Qed.

Lemma briefing_distinct_agents_witness :
  (briefing "agent-alpha" false w0).1 = (briefing "agent-alpha" true w2).1 /\
  "agent-alpha" = "agent-alpha".
Proof.
  assert (H : (briefing "agent-alpha" false w0).1
              = (briefing "agent-alpha" true w2).1) by reflexivity.
  split; [exact H|].
  exact (briefing_distinct_agents "agent-alpha" "agent-alpha" false true w0 w2 H).
Defined.

(** ** What later calls keep *)

Lemma run_get_other (lower : string -> string) (cs : list call) :
  forall (w : World) (k : string),
    ~ In k (run lower cs w).2 ->
    PyDict.get k (_nodes (self (run lower cs w).1))
    = PyDict.get k (_nodes (self w)).
Proof.
  induction cs as [|c cs IH]; intros w k; [reflexivity|].
  rewrite run_cons. cbn [fst snd]. intros Hk.
  rewrite IH by (intros Hin; apply Hk, in_or_app; right; exact Hin).
  destruct (call_cases lower c) as [(kd & t & b & tg & i & m & s & ->)|[Hw _]].
  - rewrite step_store in *. cbn [fst snd] in *.
    apply store_other_ids_unchanged. intros ->. apply Hk. left. reflexivity.
  - rewrite Hw. reflexivity.
Qed.

(** X15. A stored node stays as it was stored: after [store] returned
    [node_id], any further sequence of calls that does not draw that same
    UUID again leaves [get_node(node_id)] returning the node with the
    attributes it was stored with. *)
Theorem stored_node_persists (lower : string -> string)
  (kind title body : string) (tags : option (list string))
  (importance : float) (metadata : option (PyDict.t string))
  (source_agent : string) (cs : list call) (w w1 : World) (node_id : string) :
  store kind title body tags importance metadata source_agent w
    = (Ok node_id, w1) ->
  ~ In node_id (run lower cs w1).2 ->
  get_node node_id (run lower cs w1).1
  = (Ok (Some (_MockNode.__init__
           (node_record node_id kind title body tags importance metadata
              source_agent))),
     (run lower cs w1).1).
Proof.
  rewrite store_eq. intros [= <- <-] Hfresh.
  rewrite get_node_eq, (run_get_other lower cs _ _ Hfresh).
  cbn [self _nodes]. rewrite dict_get_set_eq. reflexivity.
Qed.

Lemma stored_node_persists_witness :
  store "fact" "Findable node" "" None 0.7%float None "" w0
    = (Ok "uuid-0", (store "fact" "Findable node" "" None 0.7%float None ""
                       w0).2) /\
  ~ In "uuid-0"
      (run ascii_lower (Search "node" 10 :: two_nodes)
         (store "fact" "Findable node" "" None 0.7%float None "" w0).2).2 /\
  get_node "uuid-0"
    (run ascii_lower (Search "node" 10 :: two_nodes)
       (store "fact" "Findable node" "" None 0.7%float None "" w0).2).1
  = (Ok (Some (_MockNode.__init__
           (node_record "uuid-0" "fact" "Findable node" "" None 0.7%float
              None ""))),
     (run ascii_lower (Search "node" 10 :: two_nodes)
        (store "fact" "Findable node" "" None 0.7%float None "" w0).2).1).
Proof.
  assert (H1 : store "fact" "Findable node" "" None 0.7%float None "" w0
    = (Ok "uuid-0", (store "fact" "Findable node" "" None 0.7%float None ""
                       w0).2)) by reflexivity.
  assert (H2 : ~ In "uuid-0"
      (run ascii_lower (Search "node" 10 :: two_nodes)
         (store "fact" "Findable node" "" None 0.7%float None "" w0).2).2).
  { vm_compute. intros Hin.
    repeat (destruct Hin as [Hin|Hin]; [discriminate Hin|]). exact Hin. }
  split; [exact H1|]. split; [exact H2|].
  exact (stored_node_persists ascii_lower "fact" "Findable node" "" None
           0.7%float None "" _ w0 _ "uuid-0" H1 H2).
Defined.

(** ** Invariants of the node dictionary *)

Lemma dict_set_Forall {V : Type} (P : string * V -> Prop) (k : string) (v : V)
  (d : PyDict.t V) :
  P (k, v) -> Forall P d -> Forall P (PyDict.set k v d).
Proof.
  intros Hkv. induction d as [|[k' v'] d IH]; intros Hd; simpl.
  - constructor; [exact Hkv | constructor].
  - inversion Hd as [|? ? Hhd Htl]; subst.
    destruct (String.eqb_spec k k') as [->|Hne].
    + constructor; [exact Hkv | exact Htl].
    + constructor; [exact Hhd | exact (IH Htl)].
Qed.

Lemma dict_get_Forall {V : Type} (P : string * V -> Prop) (k : string) (v : V)
  (d : PyDict.t V) :
  Forall P d -> PyDict.get k d = Some v -> P (k, v).
Proof.
  induction d as [|[k' v'] d IH]; intros Hd; simpl; [discriminate|].
  inversion Hd as [|? ? Hhd Htl]; subst.
  destruct (String.eqb_spec k k') as [->|Hne].
  - intros [= <-]. exact Hhd.
  - exact (IH Htl).
Qed.

Lemma str_or_empty (x y : string) : str_or x y = "" -> y = "".
Proof.
  unfold str_or. destruct (String.eqb_spec x "") as [->|Hne]; [tauto|].
  intros H. contradiction.
Qed.

(** Every entry of the node dictionary carries its own key in its [id]
    field, and has an empty body only if its title is empty. *)
Lemma run_entries_ok (lower : string -> string) (cs : list call) :
  forall w : World,
    Forall (fun kv : string * NodeData.t =>
              NodeData.id kv.2 = kv.1
              /\ (NodeData.body kv.2 = "" -> NodeData.title kv.2 = ""))
      (_nodes (self w)) ->
    Forall (fun kv : string * NodeData.t =>
              NodeData.id kv.2 = kv.1
              /\ (NodeData.body kv.2 = "" -> NodeData.title kv.2 = ""))
      (_nodes (self (run lower cs w).1)).
Proof.
  induction cs as [|c cs IH]; intros w Hw; [exact Hw|].
  rewrite run_cons. cbn [fst]. apply IH.
  destruct (call_cases lower c) as [(k & t & b & tg & i & m & s & ->)|[Hst _]].
  - rewrite step_store, store_eq. cbn [fst snd self _nodes].
    apply dict_set_Forall; [|exact Hw]. simpl. split; [reflexivity|].
    apply str_or_empty.
  - rewrite Hst. exact Hw.
Qed.

(** X16. In any world reached from a new [MockCortex], the node that
    [get_node(x)] returns has [id] equal to [x]: a record is only ever
    filed under its own id. *)
Theorem get_node_returns_requested_id (lower : string -> string)
  (cs : list call) (uuids : nat -> string) (x : string) (n : _MockNode.t) :
  (get_node x (run lower cs (new_world uuids)).1).1 = Ok (Some n) ->
  _MockNode.id n = x.
Proof.
  rewrite get_node_eq. cbn [fst].
  destruct (PyDict.get x _) as [d|] eqn:Hget; [|discriminate].
  intros [= <-].
  pose proof (run_entries_ok lower cs (new_world uuids)
                (List.Forall_nil _)) as Hok.
  apply (dict_get_Forall _ _ _ _ Hok) in Hget. exact (proj1 Hget).
Qed.

Lemma get_node_returns_requested_id_witness :
  (get_node "uuid-1" (run ascii_lower two_nodes (new_world test_uuids)).1).1
  = Ok (Some (_MockNode.__init__
          (node_record "uuid-1" "event" "Deploy complete" "" None 0.5%float
             None ""))) /\
  _MockNode.id (_MockNode.__init__
    (node_record "uuid-1" "event" "Deploy complete" "" None 0.5%float None ""))
  = "uuid-1".
Proof.
  assert (H : (get_node "uuid-1"
                 (run ascii_lower two_nodes (new_world test_uuids)).1).1
              = Ok (Some (_MockNode.__init__
                  (node_record "uuid-1" "event" "Deploy complete" "" None
                     0.5%float None "")))) by reflexivity.
  split; [exact H|].
  exact (get_node_returns_requested_id ascii_lower two_nodes test_uuids
           "uuid-1" _ H).
Defined.

(** X17. In any world reached from a new [MockCortex], a stored node has
    an empty body only if it was stored with an empty title: [store] fills
    an empty body with the title. *)
Theorem stored_body_empty_only_if_title_empty (lower : string -> string)
  (cs : list call) (uuids : nat -> string) (n : NodeData.t) :
  In n (PyDict.values (_nodes (self (run lower cs (new_world uuids)).1))) ->
  NodeData.body n = "" ->
  NodeData.title n = "".
Proof.
  pose proof (run_entries_ok lower cs (new_world uuids) (List.Forall_nil _)) as Hok.
  intros Hin. unfold PyDict.values in Hin.
  apply in_map_iff in Hin as ([k n'] & <- & Hin).
  rewrite List.Forall_forall in Hok. exact (proj2 (Hok _ Hin)).
Qed.

Lemma stored_body_empty_only_if_title_empty_witness :
  In (node_record "uuid-0" "" "" "" None 0.5%float None "")
    (PyDict.values (_nodes (self
       (run ascii_lower [Store "" "" "" None 0.5%float None ""]
          (new_world test_uuids)).1))) /\
  NodeData.body (node_record "uuid-0" "" "" "" None 0.5%float None "") = "" /\
  NodeData.title (node_record "uuid-0" "" "" "" None 0.5%float None "") = "".
Proof.
  assert (H1 : In (node_record "uuid-0" "" "" "" None 0.5%float None "")
    (PyDict.values (_nodes (self
       (run ascii_lower [Store "" "" "" None 0.5%float None ""]
          (new_world test_uuids)).1)))) by (left; reflexivity).
  assert (H2 : NodeData.body
                 (node_record "uuid-0" "" "" "" None 0.5%float None "") = "")
    by reflexivity.
  split; [exact H1|]. split; [exact H2|].
  exact (stored_body_empty_only_if_title_empty ascii_lower _ test_uuids _ H1 H2).
Defined.

(** ** Keys are unique *)

Lemma dict_get_None_not_in {V : Type} (k : string) (d : PyDict.t V) :
  PyDict.get k d = None -> ~ In k (PyDict.keys d).
Proof.
  induction d as [|[k' v'] d IH]; simpl; [tauto|].
  destruct (String.eqb_spec k k') as [->|Hne]; [discriminate|].
  intros H [Heq|Hin]; [congruence | exact (IH H Hin)].
Qed.

Lemma dict_keys_set_present {V : Type} (k : string) (v v0 : V)
  (d : PyDict.t V) :
  PyDict.get k d = Some v0 -> PyDict.keys (PyDict.set k v d) = PyDict.keys d.
Proof.
  induction d as [|[k' v'] d IH]; simpl; [discriminate|].
  destruct (String.eqb_spec k k') as [->|Hne]; [reflexivity|].
  intros H. simpl. rewrite (IH H). reflexivity.
Qed.

Lemma dict_set_keys_NoDup {V : Type} (k : string) (v : V) (d : PyDict.t V) :
  NoDup (PyDict.keys d) -> NoDup (PyDict.keys (PyDict.set k v d)).
Proof.
  intros Hnd. destruct (PyDict.get k d) as [v0|] eqn:Hget.
  - rewrite (dict_keys_set_present k v v0 d Hget). exact Hnd.
  - rewrite (dict_set_fresh k v d Hget). unfold PyDict.keys.
    rewrite map_app. apply NoDup_app. split; [exact Hnd|]. split.
    + intros x Hx Hk. apply list_elem_of_In in Hx, Hk.
      destruct Hk as [<-|[]]. exact (dict_get_None_not_in _ _ Hget Hx).
    + apply NoDup_cons_2; [|apply NoDup_nil_2]. intros H.
      apply list_elem_of_In in H. exact H.
Qed.

Lemma run_keys_NoDup (lower : string -> string) (cs : list call) :
  forall w : World,
    NoDup (PyDict.keys (_nodes (self w))) ->
    NoDup (PyDict.keys (_nodes (self (run lower cs w).1))).
Proof.
  induction cs as [|c cs IH]; intros w Hw; [exact Hw|].
  rewrite run_cons. cbn [fst]. apply IH.
  destruct (call_cases lower c) as [(k & t & b & tg & i & m & s & ->)|[Hst _]].
  - rewrite step_store, store_eq. cbn [fst snd self _nodes].
    apply dict_set_keys_NoDup. exact Hw.
  - rewrite Hst. exact Hw.
Qed.

Lemma values_ids_are_keys (d : PyDict.t NodeData.t) :
  Forall (fun kv : string * NodeData.t =>
            NodeData.id kv.2 = kv.1
            /\ (NodeData.body kv.2 = "" -> NodeData.title kv.2 = "")) d ->
  map NodeData.id (PyDict.values d) = PyDict.keys d.
Proof.
  induction 1 as [|[k n] d [Hid _] _ IH]; simpl; [reflexivity|].
  simpl in Hid. rewrite Hid. f_equal. exact IH.
Qed.

Lemma NoDup_map_filter {A B : Type} (f : A -> B) (P : A -> bool) (l : list A) :
  NoDup (map f l) -> NoDup (map f (List.filter P l)).
Proof.
  induction l as [|a l IH]; simpl; [tauto|].
  intros Hnd. apply NoDup_cons in Hnd as [Ha Hl].
  destruct (P a); simpl; [|exact (IH Hl)].
  apply NoDup_cons_2; [|exact (IH Hl)].
  intros Hin. apply Ha. apply list_elem_of_In in Hin. apply list_elem_of_In.
  apply in_map_iff in Hin as (x & Hx & Hin). apply filter_In in Hin as [Hin _].
  apply in_map_iff. eauto.
Qed.

Lemma NoDup_map_take {A B : Type} (f : A -> B) (m : nat) (l : list A) :
  NoDup (map f l) -> NoDup (map f (take m l)).
Proof.
  revert m. induction l as [|a l IH]; intros [|m]; simpl;
    try (intros _; apply NoDup_nil_2).
  intros Hnd. apply NoDup_cons in Hnd as [Ha Hl].
  apply NoDup_cons_2; [|exact (IH m Hl)].
  intros Hin. apply Ha. apply list_elem_of_In in Hin. apply list_elem_of_In.
  apply in_map_iff in Hin as (x & Hx & Hin). apply in_take in Hin.
  apply in_map_iff. eauto.
Qed.

(** X18. In any world reached from a new [MockCortex], [search] returns no
    node twice: the node ids of its results are pairwise distinct, even
    when the random source repeats a UUID. *)
Theorem search_no_duplicates (lower : string -> string) (cs : list call)
  (uuids : nat -> string) (query : string) (limit : Z) :
  exists results : list _MockSearchResult.t,
    search lower query limit (run lower cs (new_world uuids)).1
    = (Ok results, (run lower cs (new_world uuids)).1) /\
    NoDup (map _MockSearchResult.node_id results).
Proof.
  rewrite search_eq. eexists. split; [reflexivity|].
  destruct (slice_to_is_take limit
    (map (fun n => _MockSearchResult.__init__ 0.9%float (_MockNode.__init__ n))
       (matching lower query (self (run lower cs (new_world uuids)).1))))
    as [m ->].
  apply NoDup_map_take. rewrite map_map. simpl.
  change (NoDup (map NodeData.id
    (matching lower query (self (run lower cs (new_world uuids)).1)))).
  unfold matching. apply NoDup_map_filter.
  rewrite values_ids_are_keys.
  - apply run_keys_NoDup. apply NoDup_nil_2.
  - apply run_entries_ok. apply List.Forall_nil.
Qed.

(** X19. When [uuid4] draws an id that is already a key, [store] writes
    over that node in place: the record under the id becomes the new one,
    the keys and their order stay as they were, and the store holds as many
    nodes as before. *)
Theorem store_overwrites_on_collision (kind title body : string)
  (tags : option (list string)) (importance : float)
  (metadata : option (PyDict.t string)) (source_agent : string) (w : World)
  (old : NodeData.t) :
  PyDict.get (entropy w 0%nat) (_nodes (self w)) = Some old ->
  exists (node_id : string) (w' : World),
    store kind title body tags importance metadata source_agent w
      = (Ok node_id, w') /\
    PyDict.get node_id (_nodes (self w'))
      = Some (node_record node_id kind title body tags importance metadata
                source_agent) /\
    PyDict.keys (_nodes (self w')) = PyDict.keys (_nodes (self w)) /\
    PyDict.len (_nodes (self w')) = PyDict.len (_nodes (self w)).
Proof.
  intros Hold. rewrite store_eq. eexists _, _. split; [reflexivity|].
  cbn [self _nodes]. split; [apply dict_get_set_eq|].
  pose proof (dict_keys_set_present (entropy w 0%nat)
    (node_record (entropy w 0%nat) kind title body tags importance metadata
       source_agent) old (_nodes (self w)) Hold) as Hkeys.
  split; [exact Hkeys|].
  unfold PyDict.len. rewrite <- (length_map fst), <- (length_map fst (_nodes (self w))).
  exact (f_equal (@length string) Hkeys).
Qed.

Lemma store_overwrites_on_collision_witness :
  PyDict.get
    (entropy (store_default "fact" "Node A" (new_world (fun _ => "same"))).2
       0%nat)
    (_nodes (self (store_default "fact" "Node A"
                     (new_world (fun _ => "same"))).2))
  = Some (node_record "same" "fact" "Node A" "" None 0.5%float None "") /\
  exists (node_id : string) (w' : World),
    store "event" "Node B" "" None 0.5%float None ""
      (store_default "fact" "Node A" (new_world (fun _ => "same"))).2
      = (Ok node_id, w') /\
    PyDict.get node_id (_nodes (self w'))
      = Some (node_record node_id "event" "Node B" "" None 0.5%float None "") /\
    PyDict.keys (_nodes (self w'))
    = PyDict.keys (_nodes (self (store_default "fact" "Node A"
                                   (new_world (fun _ => "same"))).2)) /\
    PyDict.len (_nodes (self w'))
    = PyDict.len (_nodes (self (store_default "fact" "Node A"
                                  (new_world (fun _ => "same"))).2)).
Proof.
  split; [reflexivity|].
  apply (store_overwrites_on_collision "event" "Node B" "" None 0.5%float None
           "" (store_default "fact" "Node A" (new_world (fun _ => "same"))).2
           (node_record "same" "fact" "Node A" "" None 0.5%float None "")).
  reflexivity.
Defined.

(** * The gRPC client *)

Lemma dict_update_fresh {V : Type} (other : PyDict.t V) :
  forall d : PyDict.t V,
    NoDup (PyDict.keys d ++ PyDict.keys other) ->
    dict_update d other = (d ++ other)%list.
Proof.
  unfold dict_update.
  induction other as [|[k v] other IH]; intros d Hnd; simpl.
  - rewrite app_nil_r. reflexivity.
  - simpl in Hnd. rewrite dict_set_fresh.
    + rewrite IH.
      * rewrite <- app_assoc. reflexivity.
      * unfold PyDict.keys in *. rewrite map_app, <- app_assoc. exact Hnd.
    + apply dict_get_None_keys. intros Hin.
      apply NoDup_app in Hnd as (_ & Hdisj & _).
      apply (Hdisj k); [apply list_elem_of_In; exact Hin | left].
Qed.

(** X20. [Cortex.get_node] turns the server's [NOT_FOUND] into [None] and
    nothing else: it returns [None] exactly when the stub raised
    [RpcError] with code [NOT_FOUND], it never raises that error itself,
    every other exception of the stub reaches the caller unchanged, and an
    answer of the stub comes back as a [Node] with the answer's fields. *)
Theorem client_get_node_not_found (Server : Type)
  (GetNode : string -> Server -> Res NodeResponse.t * Server)
  (node_id : string) (s : Server) :
  (Cortex.get_node Server GetNode node_id s).1 <> Raise (RpcError NOT_FOUND) /\
  (forall s' : Server,
     Cortex.get_node Server GetNode node_id s = (Ok None, s')
     <-> GetNode node_id s = (Raise (RpcError NOT_FOUND), s')) /\
  (forall (e : exn) (s' : Server),
     e <> RpcError NOT_FOUND ->
     GetNode node_id s = (Raise e, s') ->
     Cortex.get_node Server GetNode node_id s = (Raise e, s')) /\
  (forall (resp : NodeResponse.t) (s' : Server),
     GetNode node_id s = (Ok resp, s') ->
     exists node : Node.t,
       Cortex.get_node Server GetNode node_id s = (Ok (Some node), s') /\
       Node.id node = NodeResponse.id resp /\
       Node.kind node = NodeResponse.kind resp /\
       Node.title node = NodeResponse.title resp /\
       Node.body node = NodeResponse.body resp /\
       Node.importance node = NodeResponse.importance resp /\
       Node.tags node = NodeResponse.tags resp /\
       Node.source_agent node = NodeResponse.source_agent resp).
Proof.
  unfold Cortex.get_node.
  destruct (GetNode node_id s) as [[resp|[|[]]] s1]; cbn [fst];
    (split; [discriminate|]);
    (split; [intros s'; split; intros H; try discriminate H;
             try (injection H as <-; reflexivity)|]);
    (split; [intros e s' He H; try discriminate H;
             try (injection H as <- <-; try reflexivity; congruence)|]);
    intros resp' s' H; try discriminate H.
  injection H as <- <-. eexists. repeat split.
Qed.

(** X21. The client sends what the mock stores: when the keys of a given
    [metadata] dict are distinct (as the keys of a dict are), the request
    that [Cortex.store] builds has the same kind, title, body (defaulted to
    the title), tags, importance, metadata and source agent as the record
    that [MockCortex.store] files for the same arguments. *)
Theorem client_request_matches_mock_record (kind title body : string)
  (tags : option (list string)) (importance : float)
  (metadata : option (PyDict.t string)) (source_agent : string)
  (node_id : string) :
  (forall d : PyDict.t string,
     metadata = Some d -> NoDup (PyDict.keys d)) ->
  Cortex.store_request kind title body tags importance metadata source_agent
  = {| CreateNodeRequest.kind :=
         NodeData.kind (node_record node_id kind title body tags importance
                          metadata source_agent);
       CreateNodeRequest.title :=
         NodeData.title (node_record node_id kind title body tags importance
                           metadata source_agent);
       CreateNodeRequest.body :=
         NodeData.body (node_record node_id kind title body tags importance
                          metadata source_agent);
       CreateNodeRequest.importance :=
         NodeData.importance (node_record node_id kind title body tags
                                importance metadata source_agent);
       CreateNodeRequest.tags :=
         NodeData.tags (node_record node_id kind title body tags importance
                          metadata source_agent);
       CreateNodeRequest.source_agent :=
         NodeData.source_agent (node_record node_id kind title body tags
                                  importance metadata source_agent);
       CreateNodeRequest.metadata :=
         NodeData.metadata (node_record node_id kind title body tags importance
                              metadata source_agent) |}.
Proof.
  intros Hmd. unfold Cortex.store_request, node_record. simpl.
  destruct metadata as [[|item items]|]; try reflexivity.
  simpl CreateNodeRequest.metadata. f_equal.
  apply (dict_update_fresh (item :: items) PyDict.empty).
  simpl. exact (Hmd _ eq_refl).
Qed.

Lemma client_request_matches_mock_record_witness :
  (forall d : PyDict.t string,
     Some [("project", "cortex"); ("env", "test")] = Some d ->
     NoDup (PyDict.keys d)) /\
  Cortex.store_request "note" "My annotated note" "Extended body"
    (Some ["alpha"; "beta"]) 0.8%float
    (Some [("project", "cortex"); ("env", "test")]) "kai"
  = {| CreateNodeRequest.kind := "note";
       CreateNodeRequest.title := "My annotated note";
       CreateNodeRequest.body := "Extended body";
       CreateNodeRequest.importance := 0.8%float;
       CreateNodeRequest.tags := ["alpha"; "beta"];
       CreateNodeRequest.source_agent := "kai";
       CreateNodeRequest.metadata := [("project", "cortex"); ("env", "test")] |}.
Proof.
  assert (H : forall d : PyDict.t string,
     Some [("project", "cortex"); ("env", "test")] = Some d ->
     NoDup (PyDict.keys d)).
  { intros d [= <-]. simpl. distinct_strings. }
  split; [exact H|].
  exact (client_request_matches_mock_record "note" "My annotated note"
           "Extended body" (Some ["alpha"; "beta"]) 0.8%float
           (Some [("project", "cortex"); ("env", "test")]) "kai" "uuid-0" H).
Defined.

Lemma close_closed (n : nat) :
  Cortex.close_times n {| Cortex._proc := None |}
  = ({| Cortex._proc := None |}, repeat ChannelClose n).
Proof.
  induction n as [|n IH]; [reflexivity|].
  simpl. rewrite IH. reflexivity.
Qed.

(** X22. [close] can be called any number of times: each call closes the
    channel, the subprocess of library mode is terminated by the first
    call only, and after the first call the client holds no subprocess. *)
Theorem close_terminates_once (n : nat) (cx : Cortex.t) :
  (Cortex.close_times (S n) cx).1 = {| Cortex._proc := None |} /\
  (Cortex.close_times (S n) cx).2
  = (match Cortex._proc cx with
     | Some pid => [ChannelClose; ProcTerminate pid]
     | None => [ChannelClose]
     end ++ repeat ChannelClose n)%list /\
  List.filter is_terminate (Cortex.close_times (S n) cx).2
  = match Cortex._proc cx with
    | Some pid => [ProcTerminate pid]
    | None => []
    end.
Proof.
  assert (Hrep : forall m, List.filter is_terminate (repeat ChannelClose m) = []).
  { induction m as [|m IH]; [reflexivity | exact IH]. }
  destruct cx as [[pid|]]; simpl Cortex.close_times;
    rewrite close_closed; cbn [fst snd Cortex._proc];
    (split; [reflexivity|]); (split; [reflexivity|]);
    simpl; rewrite Hrep; reflexivity.
Qed.

(** * The traversal engine *)

Lemma walks_out_spec (direction : string) :
  walks_out direction = true <-> direction = "outgoing" \/ direction = "both".
Proof. unfold walks_out. rewrite orb_true_iff, !String.eqb_eq. tauto. Qed.

Lemma walks_in_spec (direction : string) :
  walks_in direction = true <-> direction = "incoming" \/ direction = "both".
Proof. unfold walks_in. rewrite orb_true_iff, !String.eqb_eq. tauto. Qed.

Lemma edge_targets_spec (direction u v : string) (e : Edge.t) :
  In v (edge_targets direction u e) <-> follows direction e u v.
Proof.
  unfold edge_targets, follows. rewrite in_app_iff.
  rewrite <- walks_out_spec, <- walks_in_spec.
  destruct (walks_out direction); destruct (walks_in direction);
    destruct (String.eqb_spec (Edge.from_id e) u);
    destruct (String.eqb_spec (Edge.to_id e) u); simpl;
    intuition (subst; try congruence; try discriminate).
Qed.

Lemma neighbours_spec (E : list Edge.t) (direction u v : string) (e : Edge.t) :
  In (e, v) (neighbours E direction u) <-> In e E /\ follows direction e u v.
Proof.
  unfold neighbours. rewrite in_flat_map. split.
  - intros (e' & He' & Hin). apply in_map_iff in Hin as (v' & [= <- <-] & Hv).
    split; [exact He' | apply edge_targets_spec; exact Hv].
  - intros [He Hf]. exists e. split; [exact He|].
    apply in_map_iff. exists v. split; [reflexivity|].
    apply edge_targets_spec. exact Hf.
Qed.

Lemma seen_spec (v : string) (st : Walk.t) :
  seen v st = true <-> In v (map fst (Walk.visited st)).
Proof.
  unfold seen. rewrite existsb_exists. split.
  - intros (x & Hx & Heq). apply String.eqb_eq in Heq. subst. exact Hx.
  - intros H. exists v. split; [exact H | apply String.eqb_refl].
Qed.

Lemma map_fst_at_depth (depth : nat) (l : list string) :
  map fst (map (fun v : string => (v, depth)) l) = l.
Proof. induction l as [|a l IH]; simpl; [reflexivity | f_equal; exact IH]. Qed.

(** What visiting a list of candidates at one depth does: the nodes not
    seen before are appended, once each, to the visited nodes and to the
    frontier, and each of them is a candidate. *)
Lemma visit_all (depth : nat) (cands : list (option Edge.t * string)) :
  forall st : Walk.t,
    exists new : list string,
      Walk.visited (fold_left (visit depth) cands st)
      = (Walk.visited st ++ map (fun v => (v, depth)) new)%list
      /\ Walk.frontier (fold_left (visit depth) cands st)
         = (Walk.frontier st ++ new)%list
      /\ (forall v, In v new ->
            In v (map snd cands) /\ ~ In v (map fst (Walk.visited st)))
      /\ (forall v, In v (map snd cands) ->
            In v (map fst (Walk.visited st)) \/ In v new)
      /\ (forall e, In e (Walk.edges (fold_left (visit depth) cands st)) ->
            In e (Walk.edges st) \/ In (Some e) (map fst cands)).
Proof.
  induction cands as [|[via v] cands IH]; intros st.
  - exists []. simpl. rewrite !app_nil_r. repeat split; tauto.
  - cbn [fold_left]. unfold visit at 2 4 6. cbn [fst snd].
    destruct (seen v st) eqn:Hseen.
    + destruct (IH st) as (new & Hv & Hf & Hnew & Hall & He).
      exists new. split; [exact Hv|]. split; [exact Hf|]. split; [|split].
      * intros x Hx. destruct (Hnew x Hx) as [H1 H2].
        split; [right; exact H1 | exact H2].
      * intros x [<-|Hx]; [left; apply seen_spec; exact Hseen | exact (Hall x Hx)].
      * intros e Hin. destruct (He e Hin) as [H|H]; [left | right; right];
          exact H.
    + destruct (IH {| Walk.visited := (Walk.visited st ++ [(v, depth)])%list;
                      Walk.edges :=
                        (Walk.edges st
                         ++ match via with Some e => [e] | None => [] end)%list;
                      Walk.frontier := (Walk.frontier st ++ [v])%list |})
        as (new & Hv & Hf & Hnew & Hall & He).
      cbn [Walk.visited Walk.frontier Walk.edges] in *.
      assert (Hnot : ~ In v (map fst (Walk.visited st))).
      { intros H. apply seen_spec in H. congruence. }
      exists (v :: new). split; [|split; [|split; [|split]]].
      * rewrite Hv, <- app_assoc. reflexivity.
      * rewrite Hf, <- app_assoc. reflexivity.
      * intros x [<-|Hx]; [split; [left; reflexivity | exact Hnot]|].
        destruct (Hnew x Hx) as [H1 H2]. split; [right; exact H1|].
        intros H. apply H2. rewrite map_app. apply in_or_app. left. exact H.
      * intros x [<-|Hx]; [right; left; reflexivity|].
        destruct (Hall x Hx) as [H|H]; [|right; right; exact H].
        rewrite map_app in H. apply in_app_or in H as [H|[<-|[]]];
          [left; exact H | right; left; reflexivity].
      * intros e Hin. destruct (He e Hin) as [H|H]; [|right; right; exact H].
        apply in_app_or in H as [H|H]; [left; exact H|].
        destruct via as [e'|]; [|destruct H].
        destruct H as [<-|[]]. right. left. reflexivity.
Qed.

Lemma visit_NoDup (depth : nat) (st : Walk.t) (c : option Edge.t * string) :
  NoDup (map fst (Walk.visited st)) ->
  NoDup (map fst (Walk.visited (visit depth st c))).
Proof.
  intros Hnd. unfold visit. destruct (seen c.2 st) eqn:Hseen; [exact Hnd|].
  cbn [Walk.visited]. rewrite map_app. apply NoDup_app.
  split; [exact Hnd|]. split.
  - intros x Hx Hc. apply list_elem_of_In in Hx, Hc. simpl in Hc.
    destruct Hc as [<-|[]]. apply seen_spec in Hx. congruence.
  - apply NoDup_cons_2; [|apply NoDup_nil_2]. intros H.
    apply list_elem_of_In in H. exact H.
Qed.

Lemma visit_all_NoDup (depth : nat) (cands : list (option Edge.t * string)) :
  forall st : Walk.t,
    NoDup (map fst (Walk.visited st)) ->
    NoDup (map fst (Walk.visited (fold_left (visit depth) cands st))).
Proof.
  induction cands as [|c cands IH]; intros st Hnd; [exact Hnd|].
  cbn [fold_left]. apply IH. apply visit_NoDup. exact Hnd.
Qed.

Lemma candidates_spec (E : list Edge.t) (direction : string)
  (fr : list string) (o : option Edge.t) (v : string) :
  In (o, v)
    (flat_map (fun u => map (fun c : Edge.t * string => (Some c.1, c.2))
                          (neighbours E direction u)) fr)
  <-> exists u e, o = Some e /\ In u fr /\ In e E /\ follows direction e u v.
Proof.
  rewrite in_flat_map. split.
  - intros (u & Hu & Hin). apply in_map_iff in Hin as ([e v'] & [= <- <-] & Hn).
    apply neighbours_spec in Hn as [He Hf]. exists u, e. auto.
  - intros (u & e & -> & Hu & He & Hf). exists u. split; [exact Hu|].
    apply in_map_iff. exists (e, v). split; [reflexivity|].
    apply neighbours_spec. auto.
Qed.

Section Engine.

Variable E : list Edge.t.
Variable direction : string.
Variable start_ids : list string.

Lemma walk_inv_start :
  walk_inv E direction start_ids 0
    (fold_left (visit 0) (map (fun s : string => (@None Edge.t, s)) start_ids)
       {| Walk.visited := []; Walk.edges := []; Walk.frontier := [] |}).
Proof.
  pose proof (visit_all_NoDup 0
    (map (fun s : string => (@None Edge.t, s)) start_ids)
    {| Walk.visited := []; Walk.edges := []; Walk.frontier := [] |}
    (NoDup_nil_2 (A := string))) as Hnd.
  destruct (visit_all 0 (map (fun s : string => (@None Edge.t, s)) start_ids)
    {| Walk.visited := []; Walk.edges := []; Walk.frontier := [] |})
    as (new & Hv & Hf & Hnew & Hall & He).
  cbn [Walk.visited Walk.frontier Walk.edges app map] in Hv, Hf, Hnew, Hall, He.
  assert (Hsnd : forall v, In v (map snd (map (fun s : string =>
                     (@None Edge.t, s)) start_ids)) <-> In v start_ids).
  { intros v. rewrite map_map. simpl. rewrite map_id. tauto. }
  unfold walk_inv. rewrite Hv, Hf, map_fst_at_depth in *.
  split; [exact Hnd|]. split; [|split; [|split]].
  - intros v k Hin. apply in_map_iff in Hin as (v' & [= <- <-] & Hin).
    split; [lia|]. split; [|intros; lia].
    exists v'. split; [|constructor]. apply Hsnd, Hnew. exact Hin.
  - intros v j (s & Hs & Hw) Hj. assert (j = 0)%nat as -> by lia.
    inversion Hw; subst. destruct (Hall v (proj2 (Hsnd v) Hs)) as [[]|H].
    exact H.
  - intros v. rewrite in_map_iff. split.
    + intros H. exists v. auto.
    + intros (v' & [= <-] & H). exact H.
  - intros e Hin. destruct (He e Hin) as [[]|H].
    apply in_map_iff in H as ([o v] & Ho & H). simpl in Ho. subst o.
    apply in_map_iff in H as (s & [=] & _).
Qed.

Lemma walk_inv_expand (i : nat) (st : Walk.t) :
  walk_inv E direction start_ids i st ->
  walk_inv E direction start_ids (S i) (expand E direction (S i) st).
Proof.
  intros (Hnd & Hsound & Hcomplete & Hfront & Hedges). unfold expand.
  set (cands := flat_map _ (Walk.frontier st)).
  set (st0 := {| Walk.visited := Walk.visited st; Walk.edges := Walk.edges st;
                 Walk.frontier := [] |}).
  pose proof (visit_all_NoDup (S i) cands st0 Hnd) as Hnd'.
  destruct (visit_all (S i) cands st0) as (new & Hv & Hf & Hnew & Hall & He).
  cbn [Walk.visited Walk.frontier Walk.edges app st0] in Hv, Hf, Hnew, Hall, He.
  assert (Hcand : forall v, In v (map snd cands) ->
            exists u e, In u (Walk.frontier st) /\ In e E
                        /\ follows direction e u v).
  { intros v Hin. apply in_map_iff in Hin as ([o v'] & Hv' & Hin).
    simpl in Hv'. subst v'. apply candidates_spec in Hin
      as (u & e & _ & Hu & He' & Hfw). eauto. }
  unfold walk_inv. rewrite Hv, Hf.
  split; [rewrite <- Hv; exact Hnd'|]. split; [|split; [|split]].
  - intros v k Hin. apply in_app_or in Hin as [Hin|Hin].
    + destruct (Hsound v k Hin) as (Hk & Hr & Hmin). auto.
    + apply in_map_iff in Hin as (v' & [= <- <-] & Hin).
      destruct (Hnew v' Hin) as [Hc Hfresh].
      destruct (Hcand v' Hc) as (u & e & Hu & He' & Hfw).
      apply Hfront in Hu. destruct (Hsound u i Hu) as (_ & (s & Hs & Hw) & _).
      split; [lia|]. split.
      * exists s. split; [exact Hs|]. exact (within_step _ _ _ _ _ _ _ Hw He' Hfw).
      * intros j Hj. destruct (le_lt_dec (S i) j) as [Hle|Hlt]; [exact Hle|].
        exfalso. apply Hfresh. apply (Hcomplete v' j Hj). lia.
  - intros v j Hr Hj. rewrite map_app, map_fst_at_depth. apply in_or_app.
    destruct (Nat.eq_dec j (S i)) as [->|Hne].
    + destruct Hr as (s & Hs & Hw). inversion Hw as [|k a b e Hwa He' Hfw]; subst.
      assert (Hra : reach E direction start_ids i a) by (exists s; auto).
      pose proof (Hcomplete a i Hra (Nat.le_refl i)) as Ha.
      apply in_map_iff in Ha as ([a' k] & Heq & Ha). simpl in Heq. subst a'.
      destruct (Hsound a k Ha) as (Hk & (s' & Hs' & Hw') & _).
      destruct (Nat.eq_dec k i) as [->|Hki].
      * apply Hall. apply in_map_iff. exists (Some e, v). split; [reflexivity|].
        apply candidates_spec. exists a, e.
        split; [reflexivity|]. split; [apply Hfront; exact Ha|]. auto.
      * left. apply (Hcomplete v (S k)); [|lia].
        exists s'. split; [exact Hs'|].
        exact (within_step _ _ _ _ _ _ _ Hw' He' Hfw).
    + left. apply (Hcomplete v j Hr). lia.
  - intros v. simpl. split.
    + intros H. apply in_or_app. right. apply in_map_iff. exists v. auto.
    + intros H. apply in_app_or in H as [H|H].
      * destruct (Hsound v (S i) H) as (Hk & _). lia.
      * apply in_map_iff in H as (v' & [= <-] & H). exact H.
  - intros e Hin. destruct (He e Hin) as [H|H]; [exact (Hedges e H)|].
    apply in_map_iff in H as ([o v] & Ho & H). simpl in Ho. subst o.
    apply candidates_spec in H as (u & e' & [= <-] & _ & He' & _). exact He'.
Qed.

Lemma walk_inv_levels (levels : nat) :
  forall (i : nat) (st : Walk.t),
    walk_inv E direction start_ids i st ->
    walk_inv E direction start_ids (i + levels)
      (expand_levels E direction levels i st).
Proof.
  induction levels as [|levels IH]; intros i st Hinv; simpl.
  - rewrite Nat.add_0_r. exact Hinv.
  - rewrite Nat.add_succ_r. apply (IH (S i)). apply walk_inv_expand.
    exact Hinv.
Qed.

End Engine.

(** C7. The traversal engine of the specification, on every graph (cyclic
    ones included), start set, direction and depth bound: it is a total
    function, so every call returns; no node occurs twice among the visited
    nodes; the depth recorded for a visited node is its shortest
    edge-distance from the start set (the first depth at which it is seen
    stays, it is not visited again at a farther one) and is at most
    [max_depth]; so no node is returned whose shortest distance exceeds
    [max_depth]. Moreover every node within [max_depth] edges is visited,
    and only edges of the graph are reported as walked. *)
Theorem traversal_visits_once_within_bound (E : list Edge.t)
  (start_ids : list string) (max_depth : nat) (direction : string) :
  NoDup (map fst (traverse_engine E start_ids max_depth direction).1)
  /\ (forall (v : string) (k : nat),
       In (v, k) (traverse_engine E start_ids max_depth direction).1 ->
       (k <= max_depth)%nat
       /\ reach E direction start_ids k v
       /\ forall j : nat, reach E direction start_ids j v -> (k <= j)%nat)
  /\ (forall v : string,
       (forall j : nat, reach E direction start_ids j v -> (max_depth < j)%nat) ->
       ~ In v (map fst (traverse_engine E start_ids max_depth direction).1))
  /\ (forall (v : string) (j : nat),
       reach E direction start_ids j v -> (j <= max_depth)%nat ->
       In v (map fst (traverse_engine E start_ids max_depth direction).1))
  /\ (forall e : Edge.t,
       In e (traverse_engine E start_ids max_depth direction).2 -> In e E).
Proof.
  pose proof (walk_inv_levels E direction start_ids max_depth 0 _
                (walk_inv_start E direction start_ids))
    as (Hnd & Hsound & Hcomplete & _ & Hedges).
  unfold traverse_engine. cbn [fst snd]. simpl Nat.add in *.
  split; [exact Hnd|]. split; [exact Hsound|]. split; [|split].
  - intros v Hfar Hin. apply in_map_iff in Hin as ([v' k] & Heq & Hin).
    simpl in Heq. subst v'.
    destruct (Hsound v k Hin) as (Hk & Hr & _).
    specialize (Hfar k Hr). lia.
  - exact Hcomplete.
  - exact Hedges.
Qed.

(** On the cycle a -> b -> c -> a with c -> d, the walk from a ends: with
    bound 2 it stops before d, with a larger bound it visits d once and
    does not come back to a. *)
Lemma traverse_engine_on_cycle :
  (traverse_engine cyclic_graph ["a"] 2 "outgoing").1
  = [("a", 0%nat); ("b", 1%nat); ("c", 2%nat)]
  /\ (traverse_engine cyclic_graph ["a"] 9 "outgoing").1
     = [("a", 0%nat); ("b", 1%nat); ("c", 2%nat); ("d", 3%nat)]
  /\ (traverse_engine cyclic_graph ["a"] 9 "both").1
     = [("a", 0%nat); ("b", 1%nat); ("c", 1%nat); ("d", 2%nat)]
  /\ (traverse_engine cyclic_graph ["a"] 0 "both").1 = [("a", 0%nat)].
Proof. repeat split. Qed.

(** * The frame of [store] *)


